(** * sparselm.model._base: the cvxpy-backed estimator base class

    A shallow embedding of [CVXEstimator] and [TikhonovMixin]
    (src/sparselm/model/_base.py).

    - Python values of hyperparameters are the inductive [pyval].
    - An estimator instance together with the cvxpy objects it owns is the
      record [state]; methods are computations in the monad [M], which
      threads the state and propagates Python exceptions ([exn]).  State
      written before an exception is raised stays written.
    - cvxpy objects ([Variable], [Parameter], [Problem]) carry an identity
      ([nat]) handed out by an allocation counter; their mutable [.value]
      lives in the store [heap], so that aliasing between the problem's
      expression tree and the parameter namespace is kept.
    - Collaborators that are not part of this module (sklearn's input
      validation and preprocessing, the convex solver) are fields of [Env].
    - Floating point numbers are idealised as exact rationals ([Q]); the
      non-finite results of a division by zero are kept ([xnum]). *)

From Stdlib Require Import QArith ZArith List Bool Lia.
From stdpp Require Import gmap strings list fin_maps.

(* ===================================================================== *)
(** ** Numbers and arrays *)
(* ===================================================================== *)

Definition vector := list Q.
Definition matrix := list (list Q).

(** [X.shape[0]] and [X.shape[1]] of a two-dimensional array stored by rows. *)
Definition shape0 (X : matrix) : nat := length X.

Definition shape1 (X : matrix) : nat :=
  match X with
  | [] => 0
  | r :: _ => length r
  end.

(** [np.array_equal]: same shape and equal entries. *)
Fixpoint array_equal1 (a b : vector) : bool :=
  match a, b with
  | [], [] => true
  | x :: a', y :: b' => Qeq_bool x y && array_equal1 a' b'
  | _, _ => false
  end.

Fixpoint array_equal2 (A B : matrix) : bool :=
  match A, B with
  | [], [] => true
  | r :: A', s :: B' => array_equal1 r s && array_equal2 A' B'
  | _, _ => false
  end.

(** [np.sum] of a one-dimensional array. *)
Definition np_sum (v : vector) : Q := fold_right Qplus 0%Q v.

(** [np.eye(n)]. *)
Definition np_eye (n : nat) : matrix :=
  map (fun i => map (fun j => if Nat.eqb i j then 1%Q else 0%Q) (seq 0 n)) (seq 0 n).

Definition dot (a b : vector) : Q :=
  np_sum (map (fun p => (fst p * snd p)%Q) (combine a b)).

Definition mat_vec (W : matrix) (v : vector) : vector := map (fun r => dot r v) W.

Definition sum_squares (v : vector) : Q := np_sum (map (fun x => (x * x)%Q) v).

(** Results of float arithmetic that may leave the finite numbers. *)
Inductive xnum :=
| Finite (q : Q)
| PosInf
| NegInf
| NaN.

Definition Qpos_bool (q : Q) : bool := negb (Qle_bool q 0).

(** [n / s] for floats: a non-zero numerator over zero is an infinity,
    zero over zero is nan. *)
Definition x_div (n s : Q) : xnum :=
  if Qeq_bool s 0 then
    if Qeq_bool n 0 then NaN else if Qpos_bool n then PosInf else NegInf
  else Finite (n / s).

(** [w * f] for a finite [w]. *)
Definition x_mul (w : Q) (f : xnum) : xnum :=
  match f with
  | Finite q => Finite (w * q)
  | PosInf => if Qeq_bool w 0 then NaN else if Qpos_bool w then PosInf else NegInf
  | NegInf => if Qeq_bool w 0 then NaN else if Qpos_bool w then NegInf else PosInf
  | NaN => NaN
  end.

Definition x_add (a b : xnum) : xnum :=
  match a, b with
  | Finite p, Finite q => Finite (p + q)
  | NaN, _ | _, NaN => NaN
  | PosInf, NegInf | NegInf, PosInf => NaN
  | PosInf, _ | _, PosInf => PosInf
  | NegInf, _ | _, NegInf => NegInf
  end.

Definition x_sum (l : list xnum) : xnum := fold_right x_add (Finite 0) l.

(** [sample_weight * (X.shape[0] / np.sum(sample_weight))] (fit, line 156). *)
Definition rescale_sample_weight (sample_weight : vector) (X : matrix) : list xnum :=
  let factor := x_div (inject_Z (Z.of_nat (shape0 X))) (np_sum sample_weight) in
  map (fun w => x_mul w factor) sample_weight.

(* ===================================================================== *)
(** ** Python values *)
(* ===================================================================== *)

(** Values of solver keyword arguments. *)
Inductive optval :=
| OBool (b : bool)
| OInt (z : Z)
| OFloat (q : Q)
| OStr (s : string).

Inductive pyval :=
| VNone
| VBool (b : bool)
| VInt (z : Z)
| VFloat (q : Q)
| VStr (s : string)
| VList (l : list Q)                  (* a list or tuple of numbers *)
| VArray (l : list Q)                 (* a one-dimensional ndarray *)
| VMatrix (m : matrix)                (* a two-dimensional ndarray *)
| VDict (d : list (string * optval))  (* a dict of keyword arguments *)
| VObject (tag : string).             (* any other object *)

(** Object identity against the singletons [None], [True] and [False]. *)
Definition is_None (v : pyval) : bool :=
  match v with VNone => true | _ => false end.

Definition is_True (v : pyval) : bool :=
  match v with VBool true => true | _ => false end.

Definition is_False (v : pyval) : bool :=
  match v with VBool false => true | _ => false end.

(** The classes that occur as [isinstance] targets. *)
Inductive pytype :=
| TBool | TInt | TFloat | TStr | TDict | TList | TNdarray
| TIntegral   (* numbers.Integral *)
| TReal.      (* numbers.Real *)

Definition isinstance (v : pyval) (t : pytype) : bool :=
  match v, t with
  | VBool _, (TBool | TInt | TIntegral | TReal) => true
  | VInt _, (TInt | TIntegral | TReal) => true
  | VFloat _, (TFloat | TReal) => true
  | VStr _, TStr => true
  | VDict _, TDict => true
  | VList _, TList => true
  | (VArray _ | VMatrix _), TNdarray => true
  | _, _ => false
  end.

(** [isinstance(value, np.ndarray | Sequence)]; a [str] is a Sequence. *)
Definition is_ndarray_or_Sequence (v : pyval) : bool :=
  match v with
  | VList _ | VArray _ | VMatrix _ | VStr _ => true
  | _ => false
  end.

(** The number a numeric scalar stands for. *)
Definition as_number (v : pyval) : option Q :=
  match v with
  | VBool b => Some (if b then 1%Q else 0%Q)
  | VInt z => Some (inject_Z z)
  | VFloat q => Some q
  | _ => None
  end.

(** Exceptions. *)
Inductive exn :=
| ValueError (msg : string)
| TypeError (msg : string)
| AttributeError (name : string)
| InvalidParameterError (param : string)
| SolverError (msg : string).

(* ===================================================================== *)
(** ** Declared parameter constraints (sklearn.utils._param_validation) *)
(* ===================================================================== *)

Inductive interval_type := Integral | Real | RealNotInt.

Inductive closed_side := closed_left | closed_right | closed_both | closed_neither.

(** A constraint as it is written in a [_parameter_constraints] dict. *)
Inductive decl :=
| DArrayLike                       (* "array-like" *)
| DBoolean                         (* "boolean" *)
| DNone                            (* None *)
| DType (t : pytype)               (* a class, e.g. dict *)
| DInterval (type : interval_type) (left right : option Q) (closed : closed_side)
| DOptions (options : list string) (* Options(type=str, options=...) *).

(** The constraint objects [make_constraint] returns. *)
Inductive constraint :=
| _ArrayLikes
| _Booleans
| _NoneConstraint
| _InstancesOf (t : pytype)
| Interval (type : interval_type) (left right : option Q) (closed : closed_side)
| Options (options : list string).

Definition make_constraint (d : decl) : constraint :=
  match d with
  | DArrayLike => _ArrayLikes
  | DBoolean => _Booleans
  | DNone => _NoneConstraint
  | DType t => _InstancesOf t
  | DInterval ty l r c => Interval ty l r c
  | DOptions o => Options o
  end.

(** [constraint.closed in ("left", "both")] and its mirror image. *)
Definition closed_in_left_both (c : closed_side) : bool :=
  match c with closed_left | closed_both => true | _ => false end.

Definition closed_in_right_both (c : closed_side) : bool :=
  match c with closed_right | closed_both => true | _ => false end.

(** [val in interval] *)
Definition interval_contains (left right : option Q) (closed : closed_side) (val : Q) : bool :=
  let below :=
    match left with
    | None => false
    | Some l => if closed_in_left_both closed then negb (Qle_bool l val) else Qle_bool val l
    end in
  let above :=
    match right with
    | None => false
    | Some r => if closed_in_right_both closed then negb (Qle_bool val r) else Qle_bool r val
    end in
  negb below && negb above.

Definition isinstance_interval_type (v : pyval) (ty : interval_type) : bool :=
  match ty with
  | Integral => isinstance v TIntegral
  | Real => isinstance v TReal
  | RealNotInt => isinstance v TReal && negb (isinstance v TIntegral)
  end.

Definition string_in (s : string) (l : list string) : bool :=
  existsb (String.eqb s) l.

Definition is_satisfied_by (c : constraint) (val : pyval) : bool :=
  match c with
  | _ArrayLikes => match val with VList _ | VArray _ | VMatrix _ => true | _ => false end
  | _Booleans => isinstance val TBool
  | _NoneConstraint => is_None val
  | _InstancesOf t => isinstance val t
  | Interval ty l r cl =>
      isinstance_interval_type val ty &&
      match as_number val with
      | Some q => interval_contains l r cl q
      | None => false
      end
  | Options opts =>
      match val with VStr s => string_in s opts | _ => false end
  end.

(** [validate_parameter_constraints]: the parameters are visited in the order
    of the [get_params] dict; one without a declaration is skipped; the first
    one that satisfies none of its constraints raises. *)
Fixpoint validate_parameter_constraints
  (parameter_constraints : gmap string (list decl))
  (params : list (string * pyval)) : exn + unit :=
  match params with
  | [] => inr tt
  | (param_name, param_val) :: rest =>
      match parameter_constraints !! param_name with
      | None => validate_parameter_constraints parameter_constraints rest
      | Some constraints =>
          if existsb (fun c => is_satisfied_by (make_constraint c) param_val) constraints
          then validate_parameter_constraints parameter_constraints rest
          else inl (InvalidParameterError param_name)
      end
  end.

(* ===================================================================== *)
(** ** cvxpy objects *)
(* ===================================================================== *)

(** [cp.Variable(n)]: identity and length; its [.value] is in the store. *)
Record cp_Variable := { var_id : nat; var_len : nat }.

(** The keyword arguments [_generate_params] passes to [cp.Parameter]. *)
Record param_kwargs := {
  kw_shape : option (list nat);
  kw_boolean : bool;
  kw_integer : bool;
  kw_nonneg : bool;
  kw_pos : bool;
  kw_nonpos : bool;
  kw_neg : bool;
}.

Definition no_kwargs : param_kwargs :=
  {| kw_shape := None; kw_boolean := false; kw_integer := false;
     kw_nonneg := false; kw_pos := false; kw_nonpos := false; kw_neg := false |}.

(** [cp.Parameter(value=..., **kwargs)]: identity and attributes; its
    [.value] is in the store. *)
Record cp_Parameter := { par_id : nat; par_kwargs : param_kwargs }.

(** Vector-valued and scalar-valued cvxpy expressions. *)
Inductive vexpr :=
| XVar (b : cp_Variable)
| XMatMul (W : matrix) (v : vexpr)    (* W @ v *)
| XSub (v : vexpr) (c : vector).      (* v - c *)

Inductive expr :=
| EConst (q : Q)
| EParam (p : cp_Parameter)
| ESumSquares (v : vexpr)             (* cp.sum_squares(v) *)
| EAdd (a b : expr)
| EMul (a b : expr).

Inductive cvx_constraint :=
| CNonNeg (v : vexpr)                 (* v >= 0 *)
| CLeq (a b : expr).                  (* a <= b *)

Inductive cvx_objective :=
| Minimize (e : expr)
| Maximize (e : expr).

(** [cp.Problem(objective, constraints)]. *)
Record cp_Problem := {
  prob_id : nat;
  prob_objective : cvx_objective;
  prob_constraints : option (list cvx_constraint);
}.

(** The NamedTuple [CVXCanonicals]. *)
Record CVXCanonicals := {
  problem : cp_Problem;
  objective : expr;
  beta : cp_Variable;
  parameters : option (gmap string cp_Parameter);
  auxiliaries : option (gmap string expr);
  constraints : option (list cvx_constraint);
}.

(** Value of an expression, given the store of parameter and variable
    values. *)
Definition value_vector (v : option pyval) : vector :=
  match v with
  | Some (VArray l) | Some (VList l) => l
  | _ => []
  end.

Definition value_scalar (v : option pyval) : Q :=
  match v with
  | Some w => match as_number w with Some q => q | None => 0%Q end
  | None => 0%Q
  end.

Fixpoint eval_vexpr (h : gmap nat pyval) (v : vexpr) : vector :=
  match v with
  | XVar b => value_vector (h !! var_id b)
  | XMatMul W v' => mat_vec W (eval_vexpr h v')
  | XSub v' c => map (fun p => (fst p - snd p)%Q) (combine (eval_vexpr h v') c)
  end.

Fixpoint eval_expr (h : gmap nat pyval) (e : expr) : Q :=
  match e with
  | EConst q => q
  | EParam p => value_scalar (h !! par_id p)
  | ESumSquares v => sum_squares (eval_vexpr h v)
  | EAdd a b => (eval_expr h a + eval_expr h b)%Q
  | EMul a b => (eval_expr h a * eval_expr h b)%Q
  end.

(* ===================================================================== *)
(** ** Estimator state and the method monad *)
(* ===================================================================== *)

(** Calls that leave the module, in the order they are made. *)
Inductive event :=
| EvVariable (id n : nat)             (* cp.Variable(n) *)
| EvGenerateParams                    (* self._generate_params *)
| EvParameter (id : nat) (name : string)  (* cp.Parameter(...) *)
| EvAuxiliaries                       (* self._generate_auxiliaries *)
| EvObjective                         (* self._generate_objective *)
| EvConstraints                       (* self._generate_constraints *)
| EvProblem (id : nat)                (* cp.Problem(cp.Minimize(...), ...) *)
| EvSetValue (id : nat) (v : pyval)   (* cvx_parameter.value = v *)
| EvSolve (id : nat).                 (* problem.solve(...) *)

Record state := {
  (* hyperparameters, as get_params(deep=False) lists them *)
  attrs : list (string * pyval);
  (* attributes set by fit; None while the attribute does not exist *)
  canonicals_ : option CVXCanonicals;
  cached_X_ : option matrix;
  cached_y_ : option vector;
  coef_ : option pyval;
  intercept_ : option pyval;
  (* cvxpy side: values of variables and parameters, allocation counter *)
  heap : gmap nat pyval;
  next_id : nat;
  trace : list event;
}.

Definition M (A : Type) : Type := state -> state * (exn + A).

Definition ret {A} (a : A) : M A := fun st => (st, inr a).

Definition raise {A} (e : exn) : M A := fun st => (st, inl e).

Definition bind {A B} (m : M A) (k : A -> M B) : M B :=
  fun st =>
    match m st with
    | (st', inr a) => k a st'
    | (st', inl e) => (st', inl e)
    end.

Definition lift {A} (r : exn + A) : M A := fun st => (st, r).

Definition get : M state := fun st => (st, inr st).

Definition modify (f : state -> state) : M unit := fun st => (f st, inr tt).

#[global] Instance M_ret : MRet M := @ret.
#[global] Instance M_bind : MBind M := fun A B k m => bind m k.

(** State updates, one per assigned attribute. *)
Definition set_canonicals (c : CVXCanonicals) (st : state) : state :=
  {| attrs := attrs st; canonicals_ := Some c; cached_X_ := cached_X_ st;
     cached_y_ := cached_y_ st; coef_ := coef_ st; intercept_ := intercept_ st;
     heap := heap st; next_id := next_id st; trace := trace st |}.

Definition set_cached_X (X : matrix) (st : state) : state :=
  {| attrs := attrs st; canonicals_ := canonicals_ st; cached_X_ := Some X;
     cached_y_ := cached_y_ st; coef_ := coef_ st; intercept_ := intercept_ st;
     heap := heap st; next_id := next_id st; trace := trace st |}.

Definition set_cached_y (y : vector) (st : state) : state :=
  {| attrs := attrs st; canonicals_ := canonicals_ st; cached_X_ := cached_X_ st;
     cached_y_ := Some y; coef_ := coef_ st; intercept_ := intercept_ st;
     heap := heap st; next_id := next_id st; trace := trace st |}.

Definition set_coef (c : pyval) (st : state) : state :=
  {| attrs := attrs st; canonicals_ := canonicals_ st; cached_X_ := cached_X_ st;
     cached_y_ := cached_y_ st; coef_ := Some c; intercept_ := intercept_ st;
     heap := heap st; next_id := next_id st; trace := trace st |}.

Definition set_intercept (c : pyval) (st : state) : state :=
  {| attrs := attrs st; canonicals_ := canonicals_ st; cached_X_ := cached_X_ st;
     cached_y_ := cached_y_ st; coef_ := coef_ st; intercept_ := Some c;
     heap := heap st; next_id := next_id st; trace := trace st |}.

(** The cvxpy side: allocate an object, write a value, log a call. *)
Definition alloc (v : pyval) (st : state) : state :=
  {| attrs := attrs st; canonicals_ := canonicals_ st; cached_X_ := cached_X_ st;
     cached_y_ := cached_y_ st; coef_ := coef_ st; intercept_ := intercept_ st;
     heap := <[next_id st := v]> (heap st); next_id := S (next_id st);
     trace := trace st |}.

Definition store (id : nat) (v : pyval) (st : state) : state :=
  {| attrs := attrs st; canonicals_ := canonicals_ st; cached_X_ := cached_X_ st;
     cached_y_ := cached_y_ st; coef_ := coef_ st; intercept_ := intercept_ st;
     heap := <[id := v]> (heap st); next_id := next_id st; trace := trace st |}.

Definition log (e : event) (st : state) : state :=
  {| attrs := attrs st; canonicals_ := canonicals_ st; cached_X_ := cached_X_ st;
     cached_y_ := cached_y_ st; coef_ := coef_ st; intercept_ := intercept_ st;
     heap := heap st; next_id := next_id st; trace := trace st ++ [e] |}.

(** Lookup in the [get_params] dict. *)
Fixpoint assoc (name : string) (l : list (string * pyval)) : option pyval :=
  match l with
  | [] => None
  | (k, v) :: l' => if String.eqb name k then Some v else assoc name l'
  end.

(** [self.<name>] for a hyperparameter. *)
Definition getattr (name : string) : M pyval :=
  st ← get;
  match assoc name (attrs st) with
  | Some v => ret v
  | None => raise (AttributeError name)
  end.

(* ===================================================================== *)
(** ** numpy helpers used on hyperparameter values *)
(* ===================================================================== *)

(** [np.asarray(v)]; a zero-dimensional array is kept as its scalar. *)
Definition np_asarray (v : pyval) : pyval :=
  match v with
  | VList l => VArray l
  | _ => v
  end.

(** [hasattr(v, "shape")] *)
Definition has_shape (v : pyval) : bool :=
  match v with VArray _ | VMatrix _ => true | _ => false end.

(** [v.shape] of an array; a scalar wrapped by [np.asarray] has shape (). *)
Definition np_shape (v : pyval) : list nat :=
  match v with
  | VArray l | VList l => [length l]
  | VMatrix m => [shape0 m; shape1 m]
  | _ => []
  end.

(** [len(v)] of a Sequence or ndarray. *)
Definition len (v : pyval) : nat :=
  match v with
  | VList l | VArray l => length l
  | VMatrix m => length m
  | VStr s => String.length s
  | _ => 0
  end.

(** Broadcasting one row [r] against a trailing axis of length [k]. *)
Definition broadcast_row (r : list Q) (k : nat) : exn + list Q :=
  if Nat.eqb (length r) k then inr r
  else if Nat.eqb k 1 then inr r
  else match r with
       | [v] => inr (repeat v k)
       | _ => inl (ValueError "operands could not be broadcast together")
       end.

(** [value * np.ones_like(old)] for a [value] of length one
    ([_set_param_values], line 225). *)
Definition mul_ones_like (value old : pyval) : exn + pyval :=
  match value with
  | VList [v] | VArray [v] =>
      match old with
      | VList o | VArray o => inr (VArray (repeat v (length o)))
      | VMatrix m => inr (VMatrix (map (fun r => repeat v (length r)) m))
      | _ => inr (VArray [v])
      end
  | VMatrix [r] =>
      match old with
      | VList o | VArray o =>
          match broadcast_row r (length o) with
          | inr r' => inr (VMatrix [r'])
          | inl e => inl e
          end
      | VMatrix m =>
          match broadcast_row r (shape1 m) with
          | inr r' => inr (VMatrix (repeat r' (shape0 m)))
          | inl e => inl e
          end
      | _ => inr (VMatrix [r])
      end
  | _ => inl (TypeError "cannot multiply a str by an array")
  end.

(* ===================================================================== *)
(** ** Collaborators and the class interface *)
(* ===================================================================== *)

(** What [fit] calls outside this module. *)
Record Env := {
  (* cp.installed_solvers() *)
  installed_solvers : list string;
  (* BaseEstimator._validate_data(X, y, accept_sparse=False, y_numeric=True,
     multi_output=False) *)
  _validate_data : matrix -> vector -> exn + (matrix * vector);
  (* _check_sample_weight(sample_weight, X, dtype=X.dtype) *)
  _check_sample_weight : vector -> matrix -> exn + vector;
  (* _preprocess_data(X, y, copy=, fit_intercept=, sample_weight=)
     returns X, y, X_offset, y_offset, X_scale *)
  _preprocess_data :
    matrix -> vector -> pyval -> pyval -> option (list xnum) ->
    matrix * vector * vector * Q * vector;
  (* _rescale_data(X, y, sample_weight) *)
  _rescale_data : matrix -> vector -> list xnum -> matrix * vector;
  (* problem.solve(solver=, warm_start=, **solver_options): the value the
     decision variable holds afterwards *)
  problem_solve :
    cp_Problem -> gmap nat pyval -> pyval -> pyval -> list (string * optval) ->
    exn + pyval;
  (* LinearModel._set_intercept(X_offset, y_offset, X_scale): from
     fit_intercept and coef_, the new coef_ and intercept_ *)
  linear_set_intercept :
    pyval -> option pyval -> vector -> Q -> vector -> exn + (pyval * pyval);
  (* cp.Parameter(value=, **kwargs): what the constructor checks before
     there is an object, the attributes against each other and the value
     against the attributes and the shape; it raises when it refuses *)
  parameter_init : pyval -> param_kwargs -> exn + unit;
}.

Definition hook_auxiliaries : Type :=
  list (string * pyval) -> matrix -> vector -> cp_Variable ->
  gmap string cp_Parameter -> exn + option (gmap string expr).

Definition hook_objective : Type :=
  list (string * pyval) -> matrix -> vector -> cp_Variable ->
  option (gmap string cp_Parameter) -> option (gmap string expr) -> exn + expr.

Definition hook_constraints : Type :=
  list (string * pyval) -> matrix -> vector -> cp_Variable ->
  option (gmap string cp_Parameter) -> option (gmap string expr) ->
  exn + option (list cvx_constraint).

(** A concrete subclass of [CVXEstimator]: its class attributes and its
    overrides of the three hooks.  The first argument of a hook is [self],
    through its hyperparameters. *)
Record CVXEstimatorClass := {
  _parameter_constraints : gmap string (list decl);
  _cvx_parameter_constraints : option (gmap string (list decl));
  _generate_auxiliaries : hook_auxiliaries;
  _generate_objective : hook_objective;
  _generate_constraints : hook_constraints;
}.

(** [CVXEstimator._parameter_constraints] *)
Definition CVXEstimator_parameter_constraints (solvers : list string)
  : gmap string (list decl) :=
  list_to_map
    [ ("fit_intercept", [DBoolean]);
      ("copy_X", [DBoolean]);
      ("warm_start", [DBoolean]);
      ("solver", [DOptions solvers; DNone]);
      ("solver_options", [DType TDict; DNone]) ].

(** [CVXEstimator._generate_auxiliaries] and [._generate_constraints]. *)
Definition CVXEstimator_generate_auxiliaries : hook_auxiliaries :=
  fun self X y beta parameters => inr None.

Definition CVXEstimator_generate_constraints : hook_constraints :=
  fun self X y beta parameters auxiliaries => inr None.

(** A subclass that only supplies the abstract [_generate_objective]. *)
Definition CVXEstimator (solvers : list string) (obj : hook_objective)
  : CVXEstimatorClass :=
  {| _parameter_constraints := CVXEstimator_parameter_constraints solvers;
     _cvx_parameter_constraints := None;
     _generate_auxiliaries := CVXEstimator_generate_auxiliaries;
     _generate_objective := obj;
     _generate_constraints := CVXEstimator_generate_constraints |}.

(* ===================================================================== *)
(** ** TikhonovMixin *)
(* ===================================================================== *)

(** [tikhonov_w @ beta] for a constant left operand. *)
Definition matmul_const (w : pyval) (b : vexpr) : exn + vexpr :=
  match w with
  | VMatrix W => inr (XMatMul W b)
  | VArray l | VList l => inr (XMatMul [l] b)
  | _ => inl (ValueError "operand of @ is not an array")
  end.

(** [TikhonovMixin._generate_objective]; [super_generate_objective] is the
    next implementation in the method resolution order. *)
Definition TikhonovMixin_generate_objective
  (super_generate_objective : hook_objective) : hook_objective :=
  fun self X y beta parameters auxiliaries =>
    let tikhonov_w :=
      match assoc "tikhonov_w" self with
      | Some w => if is_None w then VMatrix (np_eye (shape1 X)) else w
      | None => VMatrix (np_eye (shape1 X))
      end in
    let c0 := (2 * Z.of_nat (shape0 X))%Z in
    match super_generate_objective self X y beta parameters auxiliaries with
    | inl e => inl e
    | inr objective =>
        match parameters ≫= (.!! "eta") with
        | None => inl (AttributeError "eta")
        | Some eta =>
            match matmul_const tikhonov_w (XVar beta) with
            | inl e => inl e
            | inr w_beta =>
                inr (EAdd objective
                       (EMul (EMul (EConst (inject_Z c0)) (EParam eta))
                             (ESumSquares w_beta)))
            end
        end
    end.

(** [class C(TikhonovMixin, base)]. *)
Definition TikhonovMixin (base : CVXEstimatorClass) : CVXEstimatorClass :=
  {| _parameter_constraints := _parameter_constraints base;
     _cvx_parameter_constraints := _cvx_parameter_constraints base;
     _generate_auxiliaries := _generate_auxiliaries base;
     _generate_objective := TikhonovMixin_generate_objective (_generate_objective base);
     _generate_constraints := _generate_constraints base |}.

(* ===================================================================== *)
(** ** CVXEstimator methods *)
(* ===================================================================== *)

Section Methods.
Variable env : Env.
Variable cls : CVXEstimatorClass.

(** [cp.Variable(n)] *)
Definition new_Variable (n : nat) : M cp_Variable :=
  st ← get;
  let id := next_id st in
  modify (alloc VNone);;
  modify (log (EvVariable id n));;
  mret {| var_id := id; var_len := n |}.

(** [cp.Parameter(value=param_val, **param_kwargs)]: the call is made, the
    constructor may refuse the arguments, and only then is there a new
    object holding the value. *)
Definition new_Parameter (name : string) (param_val : pyval) (kw : param_kwargs)
  : M cp_Parameter :=
  st ← get;
  let id := next_id st in
  modify (log (EvParameter id name));;
  lift (parameter_init env param_val kw);;
  modify (alloc param_val);;
  mret {| par_id := id; par_kwargs := kw |}.

(** [cp.Problem(objective, constraints)] *)
Definition new_Problem (obj : cvx_objective) (cons : option (list cvx_constraint))
  : M cp_Problem :=
  st ← get;
  let id := next_id st in
  modify (alloc VNone);;
  modify (log (EvProblem id));;
  mret {| prob_id := id; prob_objective := obj; prob_constraints := cons |}.

(** *** _validate_params *)

(** [self._parameter_constraints | self._cvx_parameter_constraints]: on a
    common key the right operand wins. *)
Definition merged_parameter_constraints : gmap string (list decl) :=
  match _cvx_parameter_constraints cls with
  | None => _parameter_constraints cls
  | Some cvx => cvx ∪ _parameter_constraints cls
  end.

Definition _validate_params (X : matrix) (y : vector) : M unit :=
  st ← get;
  lift (validate_parameter_constraints merged_parameter_constraints (attrs st)).

(** *** _set_param_values *)

(** The value assigned to [cvx_parameter.value] (lines 223-227). *)
Definition coerce_value (value old : pyval) : exn + pyval :=
  if is_ndarray_or_Sequence value then
    if Nat.eqb (len value) 1 then mul_ones_like value old
    else inr (np_asarray value)
  else inr value.

(** [getattr(self.canonicals_.parameters, parameter)] *)
Definition getattr_parameter (parameter : string) : M cp_Parameter :=
  st ← get;
  match canonicals_ st with
  | None => raise (AttributeError "canonicals_")
  | Some c =>
      match parameters c ≫= (.!! parameter) with
      | None => raise (AttributeError parameter)
      | Some p => mret p
      end
  end.

Definition current_value (st : state) (id : nat) : pyval :=
  default VNone (heap st !! id).

Fixpoint set_param_values_loop (items : list (string * pyval)) : M unit :=
  match items with
  | [] => mret tt
  | (parameter, value) :: rest =>
      match _cvx_parameter_constraints cls with
      | None => raise (TypeError "argument of type NoneType is not iterable")
      | Some cvx =>
          match cvx !! parameter with
          | None => set_param_values_loop rest
          | Some _ =>
              cvx_parameter ← getattr_parameter parameter;
              st ← get;
              value ← lift (coerce_value value (current_value st (par_id cvx_parameter)));
              modify (store (par_id cvx_parameter) value);;
              modify (log (EvSetValue (par_id cvx_parameter) value));;
              set_param_values_loop rest
          end
      end
  end.

Definition _set_param_values : M unit :=
  st ← get;
  set_param_values_loop (attrs st).

(** *** _generate_params *)

Definition set_shape (s : list nat) (kw : param_kwargs) : param_kwargs :=
  {| kw_shape := Some s; kw_boolean := kw_boolean kw; kw_integer := kw_integer kw;
     kw_nonneg := kw_nonneg kw; kw_pos := kw_pos kw; kw_nonpos := kw_nonpos kw;
     kw_neg := kw_neg kw |}.

Definition set_boolean (kw : param_kwargs) : param_kwargs :=
  {| kw_shape := kw_shape kw; kw_boolean := true; kw_integer := kw_integer kw;
     kw_nonneg := kw_nonneg kw; kw_pos := kw_pos kw; kw_nonpos := kw_nonpos kw;
     kw_neg := kw_neg kw |}.

Definition set_integer (kw : param_kwargs) : param_kwargs :=
  {| kw_shape := kw_shape kw; kw_boolean := kw_boolean kw; kw_integer := true;
     kw_nonneg := kw_nonneg kw; kw_pos := kw_pos kw; kw_nonpos := kw_nonpos kw;
     kw_neg := kw_neg kw |}.

Definition set_nonneg (kw : param_kwargs) : param_kwargs :=
  {| kw_shape := kw_shape kw; kw_boolean := kw_boolean kw; kw_integer := kw_integer kw;
     kw_nonneg := true; kw_pos := kw_pos kw; kw_nonpos := kw_nonpos kw;
     kw_neg := kw_neg kw |}.

Definition set_pos (kw : param_kwargs) : param_kwargs :=
  {| kw_shape := kw_shape kw; kw_boolean := kw_boolean kw; kw_integer := kw_integer kw;
     kw_nonneg := kw_nonneg kw; kw_pos := true; kw_nonpos := kw_nonpos kw;
     kw_neg := kw_neg kw |}.

Definition set_nonpos (kw : param_kwargs) : param_kwargs :=
  {| kw_shape := kw_shape kw; kw_boolean := kw_boolean kw; kw_integer := kw_integer kw;
     kw_nonneg := kw_nonneg kw; kw_pos := kw_pos kw; kw_nonpos := true;
     kw_neg := kw_neg kw |}.

Definition set_neg (kw : param_kwargs) : param_kwargs :=
  {| kw_shape := kw_shape kw; kw_boolean := kw_boolean kw; kw_integer := kw_integer kw;
     kw_nonneg := kw_nonneg kw; kw_pos := kw_pos kw; kw_nonpos := kw_nonpos kw;
     kw_neg := true |}.

Definition Qneg_bool (q : Q) : bool := negb (Qle_bool 0 q).

(** The [isinstance(constraint, Interval)] block (lines 280-298). *)
Definition interval_kwargs (type : interval_type) (left right : option Q)
  (closed : closed_side) (kw : param_kwargs) : param_kwargs :=
  let kw :=
    match type with
    | Integral => set_integer kw
    | _ => kw
    end in
  let kw :=
    match left with
    | None => kw
    | Some l =>
        if Qeq_bool l 0 then
          if closed_in_left_both closed then set_nonneg kw else set_pos kw
        else if Qpos_bool l then set_pos kw
        else kw
    end in
  match right with
  | None => kw
  | Some r =>
      if Qeq_bool r 0 then
        if closed_in_right_both closed then set_nonpos kw else set_neg kw
      else if Qneg_bool r then set_neg kw
      else kw
  end.

(** The body of [for constraint in constraints] up to the construction of
    the parameter: the new [param_val] and [param_kwargs]. *)
Definition constraint_kwargs (c : constraint) (param_val : pyval) (kw : param_kwargs)
  : pyval * param_kwargs :=
  match c with
  | _ArrayLikes =>
      let param_val := if has_shape param_val then param_val else np_asarray param_val in
      (param_val, set_shape (np_shape param_val) kw)
  | _Booleans => (param_val, set_boolean kw)
  | _InstancesOf t =>
      if is_satisfied_by (_InstancesOf t) (VBool true) then (param_val, set_boolean kw)
      else if is_satisfied_by (_InstancesOf t) (VInt 5) then (param_val, set_integer kw)
      else (param_val, kw)
  | Interval ty l r cl => (param_val, interval_kwargs ty l r cl kw)
  | _NoneConstraint | Options _ => (param_val, kw)
  end.

(** [for constraint in constraints]: a parameter object is made in every
    round and stored under the same name. *)
Fixpoint generate_params_constraints (param_name : string)
  (constraints : list constraint) (param_val : pyval) (kw : param_kwargs)
  (cvx_parameters : gmap string cp_Parameter) : M (gmap string cp_Parameter) :=
  match constraints with
  | [] => mret cvx_parameters
  | c :: rest =>
      let '(param_val, kw) := constraint_kwargs c param_val kw in
      p ← new_Parameter param_name param_val kw;
      generate_params_constraints param_name rest param_val kw
        (<[param_name := p]> cvx_parameters)
  end.

(** [for param_name, param_val in self.get_params(deep=False).items()] *)
Fixpoint generate_params_loop (cvx_constraints : gmap string (list decl))
  (items : list (string * pyval)) (cvx_parameters : gmap string cp_Parameter)
  : M (gmap string cp_Parameter) :=
  match items with
  | [] => mret cvx_parameters
  | (param_name, param_val) :: rest =>
      match cvx_constraints !! param_name with
      | None => generate_params_loop cvx_constraints rest cvx_parameters
      | Some decls =>
          cvx_parameters ←
            generate_params_constraints param_name (map make_constraint decls)
              param_val no_kwargs cvx_parameters;
          generate_params_loop cvx_constraints rest cvx_parameters
      end
  end.

Definition _generate_params (X : matrix) (y : vector) : M (gmap string cp_Parameter) :=
  let cvx_constraints :=
    match _cvx_parameter_constraints cls with
    | None => ∅
    | Some cvx => cvx
    end in
  st ← get;
  generate_params_loop cvx_constraints (attrs st) ∅.

(** *** generate_problem *)
Definition generate_problem (X : matrix) (y : vector) : M unit :=
  beta ← new_Variable (shape1 X);
  modify (log EvGenerateParams);;
  parameters ← _generate_params X y;
  modify (log EvAuxiliaries);;
  st ← get;
  auxiliaries ← lift (_generate_auxiliaries cls (attrs st) X y beta parameters);
  modify (log EvObjective);;
  objective ← lift (_generate_objective cls (attrs st) X y beta (Some parameters) auxiliaries);
  modify (log EvConstraints);;
  constraints ← lift (_generate_constraints cls (attrs st) X y beta (Some parameters) auxiliaries);
  problem ← new_Problem (Minimize objective) constraints;
  modify (set_canonicals
            {| problem := problem; objective := objective; beta := beta;
               parameters := Some parameters; auxiliaries := auxiliaries;
               constraints := constraints |}).

(** *** _solve *)
Definition _solve (X : matrix) (y : vector) (solver_options : list (string * optval))
  : M pyval :=
  st ← get;
  match canonicals_ st with
  | None => raise (AttributeError "canonicals_")
  | Some c =>
      solver ← getattr "solver";
      warm_start ← getattr "warm_start";
      modify (log (EvSolve (prob_id (problem c))));;
      value ← lift (problem_solve env (problem c) (heap st) solver warm_start solver_options);
      modify (store (var_id (beta c)) value);;
      mret value
  end.

(** *** fit *)

(** Lines 149-167: validation, sample weights, preprocessing. *)
Definition prepare_data (X : matrix) (y : vector) (sample_weight : option vector)
  : M (matrix * vector * vector * Q * vector) :=
  '(X, y) ← lift (_validate_data env X y);
  sample_weight ←
    match sample_weight with
    | Some sw =>
        sw ← lift (_check_sample_weight env sw X);
        mret (Some (rescale_sample_weight sw X))
    | None => mret None
    end;
  copy_X ← getattr "copy_X";
  fit_intercept ← getattr "fit_intercept";
  let '(X, y, X_offset, y_offset, X_scale) :=
    _preprocess_data env X y copy_X fit_intercept sample_weight in
  let '(X, y) :=
    match sample_weight with
    | Some sw => _rescale_data env X y sw
    | None => (X, y)
    end in
  mret (X, y, X_offset, y_offset, X_scale).

(** Lines 171-172. *)
Definition build_if_needed (X : matrix) (y : vector) : M unit :=
  st ← get;
  match canonicals_ st with
  | None => generate_problem X y
  | Some _ =>
      warm_start ← getattr "warm_start";
      if is_False warm_start then generate_problem X y else mret tt
  end.

(** Lines 174-187. *)
Definition warm_start_block (X : matrix) (y : vector) : M unit :=
  warm_start ← getattr "warm_start";
  if is_True warm_start then
    st ← get;
    (if cached_X_ st is None then modify (set_cached_X X) else mret tt);;
    st ← get;
    (if cached_y_ st is None then modify (set_cached_y y) else mret tt);;
    st ← get;
    if negb (array_equal2 (default [] (cached_X_ st)) X)
       || negb (array_equal1 (default [] (cached_y_ st)) y)
    then generate_problem X y
    else _set_param_values
  else mret tt.

(** Lines 189-191. *)
Definition get_solver_options : M (list (string * optval)) :=
  so ← getattr "solver_options";
  solver_options ← (if negb (is_None so) then getattr "solver_options" else mret (VDict []));
  match solver_options with
  | VDict d => mret d
  | _ => raise (TypeError "solver_options must be a dictionary")
  end.

(** [LinearModel._set_intercept] *)
Definition _set_intercept (X_offset : vector) (y_offset : Q) (X_scale : vector) : M unit :=
  fit_intercept ← getattr "fit_intercept";
  st ← get;
  '(coef, intercept) ← lift (linear_set_intercept env fit_intercept (coef_ st)
                                X_offset y_offset X_scale);
  modify (set_coef coef);;
  modify (set_intercept intercept).

(** Lines 189-194. *)
Definition solve_and_store (X : matrix) (y : vector)
  (X_offset : vector) (y_offset : Q) (X_scale : vector) : M unit :=
  solver_options ← get_solver_options;
  coef ← _solve X y solver_options;
  modify (set_coef coef);;
  _set_intercept X_offset y_offset X_scale.

(** Lines 169-197, on the preprocessed data. *)
Definition fit_prepared (X : matrix) (y : vector)
  (X_offset : vector) (y_offset : Q) (X_scale : vector) : M unit :=
  _validate_params X y;;
  build_if_needed X y;;
  warm_start_block X y;;
  solve_and_store X y X_offset y_offset X_scale.

Definition fit (X : matrix) (y : vector) (sample_weight : option vector) : M unit :=
  '(X, y, X_offset, y_offset, X_scale) ← prepare_data X y sample_weight;
  fit_prepared X y X_offset y_offset X_scale.

End Methods.

(* ===================================================================== *)
(** ** Construction and a worked instance *)
(* ===================================================================== *)

(** A freshly constructed estimator: only the hyperparameters exist. *)
Definition __init__ (hyperparameters : list (string * pyval)) : state :=
  {| attrs := hyperparameters; canonicals_ := None; cached_X_ := None;
     cached_y_ := None; coef_ := None; intercept_ := None;
     heap := ∅; next_id := 0; trace := [] |}.

(** [estimator.set_params(name=v)] for an existing hyperparameter. *)
Fixpoint assoc_set (name : string) (v : pyval) (l : list (string * pyval))
  : list (string * pyval) :=
  match l with
  | [] => []
  | (k, w) :: l' => if String.eqb name k then (k, v) :: l' else (k, w) :: assoc_set name v l'
  end.

Definition set_params (name : string) (v : pyval) (st : state) : state :=
  {| attrs := assoc_set name v (attrs st); canonicals_ := canonicals_ st;
     cached_X_ := cached_X_ st; cached_y_ := cached_y_ st; coef_ := coef_ st;
     intercept_ := intercept_ st; heap := heap st; next_id := next_id st;
     trace := trace st |}.

(** The state a method call ends in, and its outcome. *)
Definition run {A} (m : M A) (st : state) : state := fst (m st).
Definition outcome {A} (m : M A) (st : state) : exn + A := snd (m st).

(** The calls a method made: what it appended to the trace. *)
Definition calls_since (st st' : state) : list event :=
  drop (length (trace st)) (trace st').

Definition is_solve (e : event) : bool :=
  match e with EvSolve _ => true | _ => false end.

Definition is_build (e : event) : bool :=
  match e with
  | EvVariable _ _ | EvGenerateParams | EvParameter _ _ | EvAuxiliaries
  | EvObjective | EvConstraints | EvProblem _ => true
  | _ => false
  end.

Module Example.

(** Least squares, [1 / (2 n) * sum_squares(X @ beta - y)]. *)
Definition ols_objective : hook_objective :=
  fun self X y beta parameters auxiliaries =>
    inr (EMul (EConst (1 / inject_Z (2 * Z.of_nat (shape0 X))))
              (ESumSquares (XSub (XMatMul X (XVar beta)) y))).

Definition solvers : list string := ["CLARABEL"; "OSQP"; "SCS"].

(** A subclass without solver-parameterized hyperparameters. *)
Definition OLS : CVXEstimatorClass := CVXEstimator solvers ols_objective.

(** A ridge estimator, [class Ridge(TikhonovMixin, OLS)], with the
    solver-parameterized hyperparameter [eta >= 0]. *)
Definition Ridge : CVXEstimatorClass :=
  TikhonovMixin
    {| _parameter_constraints :=
         <["tikhonov_w" := [DArrayLike; DNone]]> (CVXEstimator_parameter_constraints solvers);
       _cvx_parameter_constraints :=
         Some {["eta" := [DInterval Real (Some 0%Q) None closed_left]]};
       _generate_auxiliaries := CVXEstimator_generate_auxiliaries;
       _generate_objective := ols_objective;
       _generate_constraints := CVXEstimator_generate_constraints |}.

(** Length of the decision variable an expression mentions. *)
Fixpoint vexpr_len (v : vexpr) : nat :=
  match v with
  | XVar b => var_len b
  | XMatMul _ v' | XSub v' _ => vexpr_len v'
  end.

Fixpoint expr_len (e : expr) : nat :=
  match e with
  | ESumSquares v => vexpr_len v
  | EAdd a b | EMul a b => Nat.max (expr_len a) (expr_len b)
  | _ => 0
  end.

Definition objective_expr (o : cvx_objective) : expr :=
  match o with Minimize e | Maximize e => e end.

(** A stand-in for the constructor of [cp.Parameter] in a cvxpy that allows
    one special attribute only (boolean and integer count as one): too many
    attributes are refused first, then a value that is not None is checked
    against the shape (a scalar when none is given) and against the
    attribute, where pos is checked as nonneg and neg as nonpos. *)
Definition special_attributes (kw : param_kwargs) : nat :=
  (if kw_boolean kw || kw_integer kw then 1 else 0) +
  (if kw_nonneg kw then 1 else 0) + (if kw_pos kw then 1 else 0) +
  (if kw_nonpos kw then 1 else 0) + (if kw_neg kw then 1 else 0).

Definition entries (v : pyval) : option (list Q) :=
  match v with
  | VList l | VArray l => Some l
  | VMatrix m => Some (concat m)
  | _ => option_map (fun q => [q]) (as_number v)
  end.

Definition is_integer (q : Q) : bool :=
  Z.eqb (Qnum q mod Z.pos (Qden q)) 0.

Definition fits_attributes (kw : param_kwargs) (q : Q) : bool :=
  (if kw_nonneg kw || kw_pos kw then Qle_bool 0 q else true) &&
  (if kw_nonpos kw || kw_neg kw then Qle_bool q 0 else true) &&
  (if kw_boolean kw then Qeq_bool q 0 || Qeq_bool q 1
   else if kw_integer kw then is_integer q else true).

Definition cvxpy_Parameter_init (value : pyval) (kw : param_kwargs) : exn + unit :=
  if Nat.ltb 1 (special_attributes kw) then
    inl (ValueError "Cannot set more than one special attribute in Parameter.")
  else if is_None value then inr tt
  else
    match entries value with
    | None => inl (ValueError "The value cannot be converted to an array.")
    | Some qs =>
        if negb (bool_decide (np_shape value = default [] (kw_shape kw))) then
          inl (ValueError "Invalid dimensions for Parameter value.")
        else if forallb (fits_attributes kw) qs then inr tt
        else inl (ValueError "Parameter value must fit its attribute.")
    end.

(** Stand-ins for the collaborators: data that passes validation unchanged,
    no centering, rows scaled by their weight, and a solver that leaves the
    decision variable at zero. *)
Definition env : Env :=
  {| installed_solvers := solvers;
     _validate_data := fun X y =>
       if Nat.eqb (length X) (length y) && negb (Nat.eqb (length X) 0)
       then inr (X, y) else inl (ValueError "inconsistent numbers of samples");
     _check_sample_weight := fun sw X =>
       if Nat.eqb (length sw) (length X) then inr sw
       else inl (ValueError "sample_weight.shape mismatch");
     _preprocess_data := fun X y copy fit_intercept sw =>
       (X, y, repeat 0%Q (shape1 X), 0%Q, repeat 1%Q (shape1 X));
     _rescale_data := fun X y sw =>
       let factor w := match w with Finite q => q | _ => 0%Q end in
       (map (fun p => map (Qmult (factor (snd p))) (fst p)) (combine X sw),
        map (fun p => (factor (snd p) * fst p)%Q) (combine y sw));
     problem_solve := fun p h solver warm_start options =>
       inr (VArray (repeat 0%Q (expr_len (objective_expr (prob_objective p)))));
     linear_set_intercept := fun fit_intercept coef X_offset y_offset X_scale =>
       match coef with
       | Some c => inr (c, VFloat 0)
       | None => inl (AttributeError "coef_")
       end;
     parameter_init := cvxpy_Parameter_init |}.


Definition hyperparameters (eta : Q) (warm_start : bool) : list (string * pyval) :=
  [ ("copy_X", VBool true); ("eta", VFloat eta); ("fit_intercept", VBool false);
    ("solver", VNone); ("solver_options", VNone); ("tikhonov_w", VNone);
    ("warm_start", VBool warm_start) ].

Definition base_hyperparameters (warm_start : bool) : list (string * pyval) :=
  [ ("copy_X", VBool true); ("fit_intercept", VBool false);
    ("solver", VNone); ("solver_options", VNone);
    ("warm_start", VBool warm_start) ].

Definition X1 : matrix := [[1; 0]; [0; 1]; [1; 1]]%Q.
Definition y1 : vector := [1; 1; 2]%Q.
Definition X2 : matrix := [[1; 0]; [0; 1]; [1; 2]]%Q.

(** Scenarios: a warm-started estimator fitted on [X1], then on [X2], then
    on [X1] again; and an estimator fitted cold on [X1] whose warm start is
    switched on before a fit on [X2]. *)
Definition warm0 : state := __init__ (hyperparameters 1 true).
Definition warm1 : state := run (fit env Ridge X1 y1 None) warm0.
Definition warm2 : state := run (fit env Ridge X2 y1 None) warm1.
Definition warm3 : state := run (fit env Ridge X1 y1 None) warm2.

Definition cold0 : state := __init__ (hyperparameters 1 false).
Definition cold1 : state := run (fit env Ridge X1 y1 None) cold0.
Definition toggled1 : state := set_params "warm_start" (VBool true) cold1.
Definition toggled2 : state := run (fit env Ridge X2 y1 None) toggled1.


(** An estimator without solver-parameterized hyperparameters, fitted cold,
    then fitted again with warm start switched on. *)
Definition ols0 : state := __init__ (base_hyperparameters false).
Definition ols1 : state := run (fit env OLS X1 y1 None) ols0.
Definition ols_toggled1 : state := set_params "warm_start" (VBool true) ols1.
Definition ols_toggled2 : state := run (fit env OLS X1 y1 None) ols_toggled1.



(** An estimator constructed with [solver_options=5]. *)
Definition bad_options : state :=
  __init__ (assoc_set "solver_options" (VInt 5) (hyperparameters 1 false)).

(** An estimator whose solver-parameterized hyperparameters are declared
    with intervals of every kind of bound: zero or positive lower bounds,
    zero or negative upper bounds, inclusive and exclusive, and an interval
    of integers without bounds. *)
Definition Bounded : CVXEstimatorClass :=
  {| _parameter_constraints := CVXEstimator_parameter_constraints solvers;
     _cvx_parameter_constraints :=
       Some (list_to_map
               [ ("eta", [DInterval Real (Some 0%Q) None closed_left]);
                 ("gamma", [DInterval Real (Some 0%Q) None closed_neither]);
                 ("kappa", [DInterval Real (Some (1 # 2)%Q) None closed_both]);
                 ("lam", [DInterval Real None (Some 0%Q) closed_right]);
                 ("mu", [DInterval Real None (Some 0%Q) closed_neither]);
                 ("nu", [DInterval Real None (Some (-1)%Q) closed_both]);
                 ("steps", [DInterval Integral None None closed_neither]) ]);
     _generate_auxiliaries := CVXEstimator_generate_auxiliaries;
     _generate_objective := ols_objective;
     _generate_constraints := CVXEstimator_generate_constraints |}.

Definition bounded_hyperparameters : list (string * pyval) :=
  [ ("copy_X", VBool true); ("eta", VFloat 1); ("fit_intercept", VBool false);
    ("gamma", VFloat (1 # 2)); ("kappa", VFloat 1); ("lam", VFloat (-1));
    ("mu", VFloat (-1)); ("nu", VFloat (-2));
    ("solver", VNone); ("solver_options", VNone); ("steps", VInt 3);
    ("warm_start", VBool false) ].

Definition bounded0 : state := __init__ bounded_hyperparameters.

(** An estimator with a count of iterations declared as a non-negative
    integer: the interval asks for two special attributes at once. *)
Definition Counted : CVXEstimatorClass :=
  {| _parameter_constraints := CVXEstimator_parameter_constraints solvers;
     _cvx_parameter_constraints :=
       Some {["n_iter" := [DInterval Integral (Some 0%Q) None closed_left]]};
     _generate_auxiliaries := CVXEstimator_generate_auxiliaries;
     _generate_objective := ols_objective;
     _generate_constraints := CVXEstimator_generate_constraints |}.

Definition counted0 : state :=
  __init__ [ ("copy_X", VBool true); ("fit_intercept", VBool false);
             ("n_iter", VInt 5); ("solver", VNone); ("solver_options", VNone);
             ("warm_start", VBool false) ].

(** The descriptor of a fitted estimator. *)
Definition no_descriptor : CVXCanonicals :=
  {| problem := {| prob_id := 0; prob_objective := Minimize (EConst 0);
                   prob_constraints := None |};
     objective := EConst 0; beta := {| var_id := 0; var_len := 0 |};
     parameters := None; auxiliaries := None; constraints := None |}.

Definition descriptor (st : state) : CVXCanonicals :=
  default no_descriptor (canonicals_ st).

(** The matrix a descriptor's objective was built from. *)
Definition built_from (c : CVXCanonicals) : option matrix :=
  match objective c with
  | EAdd (EMul _ (ESumSquares (XSub (XMatMul X _) _))) _ => Some X
  | _ => None
  end.

End Example.

(* ===================================================================== *)
(** ** Vocabulary of the specification *)
(* ===================================================================== *)

(** [preserves R m]: every call of [m] relates the state before to the
    state after, whether it returns or raises. *)
Definition preserves {A} (R : relation state) (m : M A) : Prop :=
  forall st st' r, m st = (st', r) -> R st st'.

(** Frame relations: a component of the state keeps its value; the trace
    only grows, by calls of a given kind. *)
Definition keeps {T} (f : state -> T) : relation state :=
  fun st st' => f st' = f st.

Definition grows (P : event -> bool) : relation state :=
  fun st st' => exists evs, trace st' = trace st ++ evs /\ forallb P evs = true.

Definition both (R1 R2 : relation state) : relation state :=
  fun st st' => R1 st st' /\ R2 st st'.

(** The keyword arguments after all constraints of one hyperparameter. *)
Definition final_kwargs (cs : list constraint) (v : pyval) (kw : param_kwargs)
  : pyval * param_kwargs :=
  fold_left (fun acc c => constraint_kwargs c (fst acc) (snd acc)) cs (v, kw).

(** Every hint that is set in [kw] is set in [kw']. *)
Definition kw_le (kw kw' : param_kwargs) : Prop :=
  (kw_boolean kw = true -> kw_boolean kw' = true) /\
  (kw_integer kw = true -> kw_integer kw' = true) /\
  (kw_nonneg kw = true -> kw_nonneg kw' = true) /\
  (kw_pos kw = true -> kw_pos kw' = true) /\
  (kw_nonpos kw = true -> kw_nonpos kw' = true) /\
  (kw_neg kw = true -> kw_neg kw' = true).

(** The hints the interval [Interval(ty, l, r, closed=cl)] asks for.  The
    lower bound is inclusive when the interval is closed on the left or on
    both sides, the upper bound when it is closed on the right or on both
    sides. *)
Definition interval_hints (ty : interval_type) (l r : option Q) (cl : closed_side)
  (kw : param_kwargs) : Prop :=
  (ty = Integral -> kw_integer kw = true) /\
  (forall q, l = Some q -> (q == 0)%Q ->
     match cl with
     | closed_left | closed_both => kw_nonneg kw = true
     | closed_right | closed_neither => kw_pos kw = true
     end) /\
  (forall q, l = Some q -> (0 < q)%Q -> kw_pos kw = true) /\
  (forall q, r = Some q -> (q == 0)%Q ->
     match cl with
     | closed_right | closed_both => kw_nonpos kw = true
     | closed_left | closed_neither => kw_neg kw = true
     end) /\
  (forall q, r = Some q -> (q < 0)%Q -> kw_neg kw = true).

(** The arguments of the calls of [cp.Parameter] that the constraints [cs]
    of one hyperparameter cause, in order: one call after each constraint,
    with the value and the keyword arguments accumulated so far. *)
Fixpoint constraint_constructions (cs : list constraint) (v : pyval) (kw : param_kwargs)
  : list (pyval * param_kwargs) :=
  match cs with
  | [] => []
  | c :: rest =>
      let call := constraint_kwargs c v kw in
      call :: constraint_constructions rest (fst call) (snd call)
  end.

(** The arguments of all calls of [cp.Parameter] in [_generate_params]. *)
Definition constructions (cvx : gmap string (list decl)) (items : list (string * pyval))
  : list (pyval * param_kwargs) :=
  flat_map (fun item =>
              match cvx !! fst item with
              | None => []
              | Some decls =>
                  constraint_constructions (map make_constraint decls) (snd item) no_kwargs
              end) items.

(** The constructor accepts these arguments. *)
Definition accepted (env : Env) (call : pyval * param_kwargs) : Prop :=
  parameter_init env (fst call) (snd call) = inr tt.


(** The new data compare equal to the cache, where a missing part of the
    cache is first filled with the new data (lines 176-184). *)
Definition data_unchanged (st : state) (X : matrix) (y : vector) : bool :=
  array_equal2 (default X (cached_X_ st)) X && array_equal1 (default y (cached_y_ st)) y.

(** The state once lines 176-179 have run. *)
Definition cache_data (X : matrix) (y : vector) (st : state) : state :=
  let st1 := if cached_X_ st is None then set_cached_X X st else st in
  if cached_y_ st1 is None then set_cached_y y st1 else st1.

(** A call rebuilt the problem descriptor: it constructed a [cp.Problem]. *)
Definition is_problem_event (e : event) : bool :=
  match e with EvProblem _ => true | _ => false end.

Definition rebuilt (st st' : state) : bool :=
  existsb is_problem_event (calls_since st st').

(** The solver was not called. *)
Definition solver_not_invoked (st st' : state) : Prop :=
  forallb (fun e => negb (is_solve e)) (calls_since st st') = true.



Definition is_set_value (e : event) : bool :=
  match e with EvSetValue _ _ => true | _ => false end.



(** While the descriptor is [c], it stays [c] and only the value of its
    decision variable is written. *)
Definition writes_only_beta (c : CVXCanonicals) : relation state :=
  fun st st' =>
    canonicals_ st = Some c ->
    canonicals_ st' = Some c /\
    forall j, j <> var_id (beta c) -> heap st' !! j = heap st !! j.

(** A part of the cache that exists keeps its value. *)
Definition cache_kept : relation state :=
  fun st st' =>
    (forall c, cached_X_ st = Some c -> cached_X_ st' = Some c) /\
    (forall c, cached_y_ st = Some c -> cached_y_ st' = Some c).

(** A call from [st] raises, and the state it ends in is related to [st]. *)
Definition raises_from {A} (R : relation state) (m : M A) (st : state) : Prop :=
  exists st' e, m st = (st', inl e) /\ R st st'.

(** The hyperparameters are untouched and the solver is not called. *)
Definition no_solve : relation state :=
  both (keeps attrs) (grows (fun e => negb (is_solve e))).




(** Relations that allocation and the calls of a build respect. *)
Record build_frame (R : relation state) : Prop := {
  bf_preorder : PreOrder R;
  bf_alloc : forall st v, R st (alloc v st);
  bf_log : forall st e, is_build e = true -> R st (log e st);
}.

(** Relations respected by the parameter push. *)
Record push_frame (R : relation state) : Prop := {
  pf_preorder : PreOrder R;
  pf_store : forall st id v, R st (store id v st);
  pf_log : forall st id v, R st (log (EvSetValue id v) st);
}.

(** Relations respected by the solver call and by the assignments that
    follow it. *)
Record solve_frame (R : relation state) : Prop := {
  sf_preorder : PreOrder R;
  sf_store : forall st id v, R st (store id v st);
  sf_log : forall st id, R st (log (EvSolve id) st);
}.

Definition is_parameter_event (e : event) : bool :=
  match e with EvParameter _ _ => true | _ => false end.

Definition advances : relation state :=
  fun st st' => next_id st <= next_id st'.


(* ===================================================================== *)
(** * Properties *)
(* ===================================================================== *)

(** ** Reasoning about method calls *)

Lemma bind_inr {A B} (m : M A) (k : A -> M B) st st' a :
  m st = (st', inr a) -> (m ≫= k) st = k a st'.
Proof. intros H. unfold mbind, M_bind, bind. now rewrite H. Qed.

Lemma bind_inl {A B} (m : M A) (k : A -> M B) st st' e :
  m st = (st', inl e) -> (m ≫= k) st = (st', inl e).
Proof. intros H. unfold mbind, M_bind, bind. now rewrite H. Qed.

Section Frames.
Context (R : relation state) `{!PreOrder R}.

Lemma preserves_ret {A} (a : A) : preserves R (mret a).
Proof. intros st st' r [= <- _]. reflexivity. Qed.

Lemma preserves_raise {A} e : preserves R (@raise A e).
Proof. intros st st' r [= <- _]. reflexivity. Qed.

Lemma preserves_lift {A} (x : exn + A) : preserves R (lift x).
Proof. intros st st' r [= <- _]. reflexivity. Qed.

Lemma preserves_get : preserves R get.
Proof. intros st st' r [= <- _]. reflexivity. Qed.

Lemma preserves_modify f : (forall st, R st (f st)) -> preserves R (modify f).
Proof. intros Hf st st' r [= <- _]. apply Hf. Qed.

Lemma preserves_bind {A B} (m : M A) (k : A -> M B) :
  preserves R m -> (forall a, preserves R (k a)) -> preserves R (m ≫= k).
Proof.
  intros Hm Hk st st' r. unfold mbind, M_bind, bind.
  destruct (m st) as [st1 [e|a]] eqn:E.
  - intros [= <- _]. eapply Hm, E.
  - intros Hka. transitivity st1; [eapply Hm, E | eapply Hk, Hka].
Qed.

Lemma preserves_getattr name : preserves R (getattr name).
Proof.
  unfold getattr. apply preserves_bind; [apply preserves_get|].
  intros st. destruct (assoc name (attrs st)); [apply preserves_ret | apply preserves_raise].
Qed.

End Frames.

#[global] Instance keeps_preorder {T} (f : state -> T) : PreOrder (keeps f).
Proof.
  split; [intros st; reflexivity|].
  intros a b c Hab Hbc. unfold keeps in *. congruence.
Qed.

#[global] Instance grows_preorder P : PreOrder (grows P).
Proof.
  split.
  - intros st. exists []. now rewrite app_nil_r.
  - intros a b c [e1 [H1 F1]] [e2 [H2 F2]]. exists (e1 ++ e2). split.
    + now rewrite H2, H1, <- app_assoc.
    + rewrite forallb_app. now rewrite F1, F2.
Qed.

#[global] Instance both_preorder R1 R2 `{!PreOrder R1, !PreOrder R2} : PreOrder (both R1 R2).
Proof.
  split.
  - intros st; split; reflexivity.
  - intros a b c [H1 H2] [H3 H4]; split; etransitivity; eauto.
Qed.

Lemma preserves_both {A} R1 R2 (m : M A) :
  preserves R1 m -> preserves R2 m -> preserves (both R1 R2) m.
Proof. intros H1 H2 st st' r E. split; [eapply H1 | eapply H2]; eauto. Qed.

Lemma grows_log P e st : P e = true -> grows P st (log e st).
Proof. intros H. exists [e]. simpl. now rewrite H. Qed.

Lemma grows_same_trace P st st' : trace st' = trace st -> grows P st st'.
Proof. intros H. exists []. now rewrite app_nil_r. Qed.

Lemma grows_calls_since P st st' :
  grows P st st' -> trace st' = trace st ++ calls_since st st' /\
                    forallb P (calls_since st st') = true.
Proof.
  intros [evs [H F]]. unfold calls_since. rewrite H, drop_app_length. auto.
Qed.

(** Decomposition of a [preserves] goal along the structure of a method. *)
Ltac frame_step :=
  lazymatch goal with
  | |- PreOrder _ => apply _
  | |- preserves _ (mbind _ _) => apply preserves_bind; [ .. | intros ?]
  | |- preserves _ (mret _) => apply preserves_ret
  | |- preserves _ (raise _) => apply preserves_raise
  | |- preserves _ (lift _) => apply preserves_lift
  | |- preserves _ get => apply preserves_get
  | |- preserves _ (getattr _) => apply preserves_getattr
  | |- preserves _ (modify _) => apply preserves_modify; intros ?
  | |- preserves _ (match ?x with _ => _ end) => destruct x
  | |- preserves _ (if ?x then _ else _) => destruct x
  | |- preserves _ (let '(_, _) := ?x in _) => destruct x
  end.

Ltac frame := repeat frame_step.

(* ===================================================================== *)
(** ** The parameter translator: hints derived from a numeric interval *)
(* ===================================================================== *)

Lemma kw_le_refl kw : kw_le kw kw.
Proof. unfold kw_le; tauto. Qed.

Lemma kw_le_trans a b c : kw_le a b -> kw_le b c -> kw_le a c.
Proof. unfold kw_le; tauto. Qed.

Lemma interval_kwargs_le ty l r cl kw : kw_le kw (interval_kwargs ty l r cl kw).
Proof.
  unfold interval_kwargs, kw_le.
  destruct ty, l as [l|], r as [r|]; simpl;
    repeat match goal with |- context [if ?b then _ else _] => destruct b end;
    simpl; tauto.
Qed.

Lemma constraint_kwargs_le c v kw : kw_le kw (snd (constraint_kwargs c v kw)).
Proof.
  destruct c; simpl; try apply kw_le_refl.
  - unfold kw_le; simpl; tauto.
  - unfold kw_le; simpl; tauto.
  - repeat match goal with |- context [if ?b then _ else _] => destruct b end;
      unfold kw_le; simpl; tauto.
  - apply interval_kwargs_le.
Qed.

Lemma final_kwargs_le cs v kw : kw_le kw (snd (final_kwargs cs v kw)).
Proof.
  unfold final_kwargs. revert v kw. induction cs as [|c cs IH]; intros v kw; simpl.
  - apply kw_le_refl.
  - eapply kw_le_trans; [apply (constraint_kwargs_le c v kw)|].
    destruct (constraint_kwargs c v kw) as [v' kw']. apply IH.
Qed.

Lemma Qpos_bool_lt q : (0 < q)%Q -> Qpos_bool q = true.
Proof.
  intros H. unfold Qpos_bool. destruct (Qle_bool q 0) eqn:E; [|reflexivity].
  apply Qle_bool_iff in E. exfalso. eapply Qlt_not_le; eauto.
Qed.

Lemma Qneg_bool_lt q : (q < 0)%Q -> Qneg_bool q = true.
Proof.
  intros H. unfold Qneg_bool. destruct (Qle_bool 0 q) eqn:E; [|reflexivity].
  apply Qle_bool_iff in E. exfalso. eapply Qlt_not_le; eauto.
Qed.

Lemma Qeq_bool_lt_false q : (0 < q)%Q -> Qeq_bool q 0 = false.
Proof.
  intros H. destruct (Qeq_bool q 0) eqn:E; [|reflexivity].
  apply Qeq_bool_iff in E. rewrite E in H. now apply Qlt_irrefl in H.
Qed.

Lemma Qeq_bool_gt_false q : (q < 0)%Q -> Qeq_bool q 0 = false.
Proof.
  intros H. destruct (Qeq_bool q 0) eqn:E; [|reflexivity].
  apply Qeq_bool_iff in E. rewrite E in H. now apply Qlt_irrefl in H.
Qed.

Lemma interval_kwargs_hints ty l r cl kw :
  interval_hints ty l r cl (interval_kwargs ty l r cl kw).
Proof.
  unfold interval_hints. repeat split.
  - intros ->. unfold interval_kwargs.
    destruct l as [l|], r as [r|]; simpl;
      repeat match goal with |- context [if ?b then _ else _] => destruct b end;
      reflexivity.
  - intros q -> Hq. apply Qeq_bool_iff in Hq. unfold interval_kwargs. rewrite Hq.
    destruct cl, r as [r|]; simpl;
      repeat match goal with |- context [if ?b then _ else _] => destruct b end;
      reflexivity.
  - intros q -> Hq. unfold interval_kwargs.
    rewrite (Qeq_bool_lt_false q Hq), (Qpos_bool_lt q Hq).
    destruct r as [r|]; simpl;
      repeat match goal with |- context [if ?b then _ else _] => destruct b end;
      reflexivity.
  - intros q -> Hq. apply Qeq_bool_iff in Hq. unfold interval_kwargs. rewrite Hq.
    destruct cl; reflexivity.
  - intros q -> Hq. unfold interval_kwargs.
    rewrite (Qeq_bool_gt_false q Hq), (Qneg_bool_lt q Hq). reflexivity.
Qed.

Lemma interval_hints_le ty l r cl kw kw' :
  kw_le kw kw' -> interval_hints ty l r cl kw -> interval_hints ty l r cl kw'.
Proof.
  unfold kw_le, interval_hints.
  intros (Hb & Hi & Hnn & Hp & Hnp & Hn) (H1 & H2 & H3 & H4 & H5).
  repeat split; eauto.
  - intros q Hl Hq. specialize (H2 q Hl Hq). destruct cl; auto.
  - intros q Hr Hq. specialize (H4 q Hr Hq). destruct cl; auto.
Qed.

Lemma final_kwargs_hints cs v kw ty l r cl :
  In (Interval ty l r cl) cs ->
  interval_hints ty l r cl (snd (final_kwargs cs v kw)).
Proof.
  unfold final_kwargs. revert v kw.
  induction cs as [|c cs IH]; intros v kw Hin; [destruct Hin|].
  destruct Hin as [-> | Hin]; simpl.
  - eapply interval_hints_le; [apply final_kwargs_le|].
    apply interval_kwargs_hints.
  - destruct (constraint_kwargs c v kw) as [v' kw'] eqn:E. simpl. now apply IH.
Qed.

(** The last call of [cp.Parameter] for a hyperparameter receives the
    keyword arguments accumulated over all its constraints. *)
Lemma final_kwargs_constructed cs : forall v kw,
  cs <> [] -> In (final_kwargs cs v kw) (constraint_constructions cs v kw).
Proof.
  induction cs as [|c rest IH]; intros v kw Hne; [contradiction|].
  unfold final_kwargs. cbn [fold_left constraint_constructions fst snd].
  destruct (constraint_kwargs c v kw) as [v1 kw1]. cbn [fst snd].
  destruct rest as [|c' rest']; [now left|].
  right. apply (IH v1 kw1). discriminate.
Qed.

Lemma constructions_In cvx items name v decls call :
  In (name, v) items -> cvx !! name = Some decls ->
  In call (constraint_constructions (map make_constraint decls) v no_kwargs) ->
  In call (constructions cvx items).
Proof.
  intros Hin Hd Hcall. unfold constructions. apply in_flat_map.
  exists (name, v). split; [exact Hin|]. cbn [fst snd]. now rewrite Hd.
Qed.

Lemma NoDup_fst_unique (l : list (string * pyval)) k v v' :
  NoDup (map fst l) -> In (k, v) l -> In (k, v') l -> v = v'.
Proof.
  induction l as [|[k0 v0] l IH]; cbn [map fst]; intros Hnd H1 H2; [destruct H1|].
  apply NoDup_cons in Hnd as [Hnot Hnd].
  assert (Hkey : forall w, In (k0, w) l -> False).
  { intros w Hw. apply Hnot, list_elem_of_In.
    change k0 with (fst (k0, w)). now apply in_map. }
  destruct H1 as [H1 | H1], H2 as [H2 | H2].
  - congruence.
  - injection H1 as <- <-. destruct (Hkey _ H2).
  - injection H2 as <- <-. destruct (Hkey _ H1).
  - now apply IH.
Qed.

Lemma new_Parameter_run env name v kw st :
  parameter_init env v kw = inr tt ->
  new_Parameter env name v kw st =
  (log (EvParameter (next_id st) name) (alloc v st),
   inr {| par_id := next_id st; par_kwargs := kw |}).
Proof.
  intros H. unfold new_Parameter, mbind, M_bind, bind, get, modify, lift. cbn.
  rewrite H. reflexivity.
Qed.

Lemma new_Parameter_raises env name v kw st e :
  parameter_init env v kw = inl e ->
  new_Parameter env name v kw st = (log (EvParameter (next_id st) name) st, inl e).
Proof.
  intros H. unfold new_Parameter, mbind, M_bind, bind, get, modify, lift. cbn.
  rewrite H. reflexivity.
Qed.

(** The constraints of one hyperparameter: either the constructor accepts
    every call and the name is bound to the parameter of the last call, or
    the loop raises what the constructor raised at the first call it
    refused. *)
Lemma generate_params_constraints_run env name cs : forall v kw m st,
  (Forall (accepted env) (constraint_constructions cs v kw) /\
   exists st' m',
     generate_params_constraints env name cs v kw m st = (st', inr m') /\
     (cs = [] -> m' = m) /\
     (cs <> [] -> exists p, m' = <[name := p]> m /\
                           par_kwargs p = snd (final_kwargs cs v kw))) \/
  (exists call e st',
     In call (constraint_constructions cs v kw) /\
     parameter_init env (fst call) (snd call) = inl e /\
     generate_params_constraints env name cs v kw m st = (st', inl e)).
Proof.
  induction cs as [|c rest IH]; intros v kw m st.
  - left. split; [constructor|]. exists st, m. repeat split; auto.
    intros H; now destruct H.
  - cbn [generate_params_constraints constraint_constructions].
    unfold final_kwargs. cbn [fold_left fst snd].
    destruct (constraint_kwargs c v kw) as [v1 kw1] eqn:E. cbn [fst snd].
    destruct (parameter_init env v1 kw1) as [e|[]] eqn:Hinit.
    + right. exists (v1, kw1), e, (log (EvParameter (next_id st) name) st).
      split; [now left|]. split; [exact Hinit|].
      erewrite bind_inl; [reflexivity | now apply new_Parameter_raises].
    + set (p := {| par_id := next_id st; par_kwargs := kw1 |}).
      set (st1 := log (EvParameter (next_id st) name) (alloc v1 st)).
      destruct (IH v1 kw1 (<[name := p]> m) st1)
        as [[Hall (st' & m' & Hrun & Hnil & Hcons)] |
            (call & e & st' & Hin & Hrej & Hrun)].
      * left. split; [constructor; [exact Hinit | exact Hall]|].
        exists st', m'. split; [|split].
        -- erewrite bind_inr; [exact Hrun | now apply new_Parameter_run].
        -- discriminate.
        -- intros _. destruct rest as [|c' rest'].
           ++ rewrite (Hnil eq_refl). exists p. split; reflexivity.
           ++ destruct Hcons as (p' & -> & Hkw); [discriminate|].
              exists p'. split; [apply insert_insert_eq | exact Hkw].
      * right. exists call, e, st'. split; [now right|]. split; [exact Hrej|].
        erewrite bind_inr; [exact Hrun | now apply new_Parameter_run].
Qed.

(** The loop over the hyperparameters: either the constructor accepts every
    call, and then a name is bound exactly when a hyperparameter of that
    name has a declaration with at least one constraint, to a parameter
    whose keyword arguments come from that declaration; or the loop raises
    what the constructor raised. *)
Lemma generate_params_loop_run env cvx items : forall m st,
  (Forall (accepted env) (constructions cvx items) /\
   exists st' ps,
     generate_params_loop env cvx items m st = (st', inr ps) /\
     (forall name p, ps !! name = Some p ->
        m !! name = Some p \/
        exists v decls,
          In (name, v) items /\ cvx !! name = Some decls /\ decls <> [] /\
          par_kwargs p = snd (final_kwargs (map make_constraint decls) v no_kwargs)) /\
     (forall name,
        is_Some (m !! name) \/
        (exists v decls, In (name, v) items /\ cvx !! name = Some decls /\ decls <> []) ->
        is_Some (ps !! name))) \/
  (exists call e st',
     In call (constructions cvx items) /\
     parameter_init env (fst call) (snd call) = inl e /\
     generate_params_loop env cvx items m st = (st', inl e)).
Proof.
  induction items as [|[n0 v0] rest IH]; intros m st.
  - left. split; [constructor|]. exists st, m. split; [reflexivity|]. split.
    + intros name p Hp. now left.
    + intros name [H | (v & decls & [] & _)]. exact H.
  - unfold constructions. cbn [flat_map generate_params_loop fst snd].
    fold (constructions cvx rest).
    destruct (cvx !! n0) as [ds|] eqn:En0.
    + destruct (generate_params_constraints_run env n0 (map make_constraint ds)
                  v0 no_kwargs m st)
        as [[Hall1 (st1 & m1 & Hrun1 & Hnil & Hcons)] |
            (call & e & st' & Hin & Hrej & Hrun)].
      2:{ right. exists call, e, st'. split; [apply in_or_app; now left|].
          split; [exact Hrej|]. erewrite bind_inl; [reflexivity | exact Hrun]. }
      destruct (IH m1 st1)
        as [[Hall2 (st' & ps & Hrun & Hsound & Hcomplete)] |
            (call & e & st' & Hin & Hrej & Hrun)].
      2:{ right. exists call, e, st'. split; [apply in_or_app; now right|].
          split; [exact Hrej|]. erewrite bind_inr; [exact Hrun | exact Hrun1]. }
      left. split; [apply Forall_app; auto|].
      exists st', ps. split; [erewrite bind_inr; [exact Hrun | exact Hrun1]|].
      assert (Hm1 : (ds = [] /\ m1 = m) \/
                    (ds <> [] /\ exists p, m1 = <[n0 := p]> m /\
                       par_kwargs p =
                         snd (final_kwargs (map make_constraint ds) v0 no_kwargs))).
      { destruct ds as [|d ds']; [left; split; [reflexivity | now apply Hnil]|].
        right. split; [discriminate|]. apply Hcons. discriminate. }
      split.
      * intros name p Hp.
        destruct (Hsound name p Hp) as [H | (v & decls & Hin & H)].
        -- destruct Hm1 as [[_ ->] | (Hne & p0 & -> & Hkw)]; [now left|].
           destruct (decide (n0 = name)) as [Heq | Hneq].
           ++ subst name. rewrite lookup_insert_eq in H. injection H as <-.
              right. exists v0, ds. repeat split; auto. now left.
           ++ rewrite lookup_insert_ne in H by exact Hneq. now left.
        -- right. exists v, decls. split; [now right | exact H].
      * intros name Hsrc. apply Hcomplete.
        destruct Hsrc as [Hm | (v & decls & [Heq | Hin] & Hd & Hne)].
        -- left. destruct Hm1 as [[_ ->] | (_ & p0 & -> & _)]; [exact Hm|].
           apply lookup_insert_is_Some. destruct (decide (n0 = name)); auto.
        -- injection Heq as <- <-. rewrite En0 in Hd. injection Hd as <-.
           destruct Hm1 as [[-> _] | (_ & p0 & -> & _)]; [contradiction|].
           left. rewrite lookup_insert_eq. eauto.
        -- right. eauto.
    + cbn [app].
      destruct (IH m st)
        as [[Hall (st' & ps & Hrun & Hsound & Hcomplete)] |
            (call & e & st' & Hin & Hrej & Hrun)].
      * left. split; [exact Hall|]. exists st', ps. split; [exact Hrun|]. split.
        -- intros name p Hp.
           destruct (Hsound name p Hp) as [H | (v & decls & Hin & H)]; [now left|].
           right. exists v, decls. split; [now right | exact H].
        -- intros name Hsrc. apply Hcomplete.
           destruct Hsrc as [Hm | (v & decls & [Heq | Hin] & Hd & Hne)];
             [now left | | right; eauto].
           injection Heq as <- <-. congruence.
      * right. exists call, e, st'. auto.
Qed.

(** [_generate_params] as a whole, for a class with cvxpy declarations. *)
Lemma generate_params_run env cls X y st cvx :
  _cvx_parameter_constraints cls = Some cvx ->
  (Forall (accepted env) (constructions cvx (attrs st)) /\
   exists st' ps,
     _generate_params env cls X y st = (st', inr ps) /\
     (forall name p, ps !! name = Some p ->
        exists v decls,
          In (name, v) (attrs st) /\ cvx !! name = Some decls /\ decls <> [] /\
          par_kwargs p = snd (final_kwargs (map make_constraint decls) v no_kwargs)) /\
     (forall name v decls,
        In (name, v) (attrs st) -> cvx !! name = Some decls -> decls <> [] ->
        is_Some (ps !! name))) \/
  (exists call e st',
     In call (constructions cvx (attrs st)) /\
     parameter_init env (fst call) (snd call) = inl e /\
     _generate_params env cls X y st = (st', inl e)).
Proof.
  intros Hcls. unfold _generate_params. rewrite Hcls.
  destruct (generate_params_loop_run env cvx (attrs st) ∅ st)
    as [[Hall (st' & ps & Hrun & Hsound & Hcomplete)] |
        (call & e & st' & Hin & Hrej & Hrun)].
  - left. split; [exact Hall|]. exists st', ps.
    split; [erewrite bind_inr; [exact Hrun | reflexivity]|]. split.
    + intros name p Hp. destruct (Hsound name p Hp) as [H | H]; [|exact H].
      rewrite lookup_empty in H. discriminate.
    + intros name v decls Hin Hd Hne. apply Hcomplete. right. eauto.
  - right. exists call, e, st'. split; [exact Hin|]. split; [exact Hrej|].
    erewrite bind_inr; [exact Hrun | reflexivity].
Qed.

(** C4. For a solver-parameterized hyperparameter whose declared constraints
    contain a numeric interval, the keyword arguments that
    [_generate_params] has accumulated for it, and passes to [cp.Parameter],
    carry the hints of that interval: a lower bound of zero gives nonneg if
    the bound is inclusive and pos if it is exclusive; a positive lower
    bound gives pos; an upper bound of zero gives nonpos if inclusive and
    neg if exclusive; a negative upper bound gives neg; an interval of type
    Integral also gives integer.  [_generate_params] returns exactly when
    the constructor accepts every call, the parameter it then holds under
    the name of the hyperparameter has these keyword arguments, and when it
    raises it raises what the constructor raised. *)
Theorem generate_params_interval_hints
  (env : Env) (cls : CVXEstimatorClass) (X : matrix) (y : vector) (st : state)
  (cvx : gmap string (list decl)) (name : string) (value : pyval)
  (decls : list decl) (ty : interval_type) (l r : option Q) (cl : closed_side)
  (Hcls : _cvx_parameter_constraints cls = Some cvx)
  (Hdecl : cvx !! name = Some decls)
  (Hint : In (DInterval ty l r cl) decls)
  (Hattr : In (name, value) (attrs st))
  (Hnames : NoDup (map fst (attrs st))) :
  let call := final_kwargs (map make_constraint decls) value no_kwargs in
  interval_hints ty l r cl (snd call) /\
  In call (constructions cvx (attrs st)) /\
  (Forall (accepted env) (constructions cvx (attrs st)) <->
     exists st' ps, _generate_params env cls X y st = (st', inr ps)) /\
  (forall st' ps,
     _generate_params env cls X y st = (st', inr ps) ->
     exists p, ps !! name = Some p /\ par_kwargs p = snd call) /\
  (forall st' e,
     _generate_params env cls X y st = (st', inl e) ->
     exists refused,
       In refused (constructions cvx (attrs st)) /\
       parameter_init env (fst refused) (snd refused) = inl e).
Proof.
  intros call.
  assert (Hne : decls <> []) by (intros ->; destruct Hint).
  assert (Hcs : In (Interval ty l r cl) (map make_constraint decls)).
  { change (Interval ty l r cl) with (make_constraint (DInterval ty l r cl)).
    now apply in_map. }
  split; [now apply final_kwargs_hints|].
  split.
  { apply (constructions_In cvx (attrs st) name value decls); auto.
    apply final_kwargs_constructed. intros Hnil. apply map_eq_nil in Hnil. contradiction. }
  destruct (generate_params_run env cls X y st cvx Hcls)
    as [[Hall (st1 & ps1 & Hrun & Hsound & Hcomplete)] |
        (refused & e1 & st1 & Hin & Hrej & Hrun)].
  - split; [split; [eauto | auto]|]. split.
    + intros st' ps Hret. rewrite Hrun in Hret. injection Hret as <- <-.
      destruct (Hcomplete name value decls Hattr Hdecl Hne) as [p Hp].
      exists p. split; [exact Hp|].
      destruct (Hsound name p Hp) as (v' & decls' & Hin' & Hd' & _ & Hkw).
      rewrite Hdecl in Hd'. injection Hd' as <-.
      assert (Hv : v' = value)
        by (symmetry; apply (NoDup_fst_unique (attrs st) name); assumption).
      subst v'. exact Hkw.
    + intros st' e Hraise. rewrite Hrun in Hraise. discriminate.
  - split; [split|].
    + intros Hall. exfalso.
      apply (proj1 (List.Forall_forall _ _) Hall) in Hin.
      unfold accepted in Hin. rewrite Hrej in Hin. discriminate.
    + intros (st' & ps & Hret). rewrite Hrun in Hret. discriminate.
    + split.
      * intros st' ps Hret. rewrite Hrun in Hret. discriminate.
      * intros st' e Hraise. rewrite Hrun in Hraise. injection Hraise as <- <-.
        exists refused. auto.
Qed.

(** With the stand-in of a cvxpy that allows one special attribute only, an
    interval of non-negative integers, which asks for integer and nonneg at
    once, cannot be turned into a parameter: [_generate_params] raises. *)
Lemma generate_params_two_attributes_refused :
  outcome (_generate_params Example.env Example.Counted Example.X1 Example.y1)
    Example.counted0
  = inl (ValueError "Cannot set more than one special attribute in Parameter.").
Proof. vm_compute. reflexivity. Qed.

(* ===================================================================== *)
(** ** The Tikhonov mixin *)
(* ===================================================================== *)


Lemma eval_tikhonov_penalty h base eta beta W n :
  (eval_expr h (EAdd base
                  (EMul (EMul (EConst (inject_Z (2 * Z.of_nat n))) (EParam eta))
                        (ESumSquares (XMatMul W (XVar beta)))))
   == eval_expr h base
      + 2 * inject_Z (Z.of_nat n) * value_scalar (h !! par_id eta)
        * sum_squares (mat_vec W (value_vector (h !! var_id beta))))%Q.
Proof.
  simpl. rewrite inject_Z_mult. reflexivity.
Qed.

(** [np.eye(n) @ v] is [v]: the default weighting is plain ridge. *)
Lemma dot_unit_row v : forall s i,
  (dot (map (fun j => if Nat.eqb i j then 1 else 0) (seq s (length v))) v
   == if (s <=? i)%nat && (i <? s + length v)%nat then nth (i - s) v 0 else 0)%Q.
Proof.
  induction v as [|x v IH]; intros s i.
  - unfold dot. cbn [length seq map combine np_sum fold_right].
    destruct ((s <=? i)%nat && (i <? s + 0)%nat); [destruct (i - s)%nat|]; reflexivity.
  - cbn [length seq map]. unfold dot in *. cbn [combine map np_sum fold_right fst snd].
    change (fold_right Qplus 0%Q ?l) with (np_sum l). rewrite (IH (S s) i).
    destruct (Nat.eqb_spec i s) as [-> | Hne].
    + replace (S s <=? s)%nat with false by (symmetry; apply Nat.leb_gt; lia).
      replace (s <=? s)%nat with true by (symmetry; apply Nat.leb_le; lia).
      replace (s <? s + S (length v))%nat with true by (symmetry; apply Nat.ltb_lt; lia).
      rewrite Nat.sub_diag. cbn. ring.
    + destruct (Nat.leb_spec (S s) i) as [Hle | Hgt].
      * replace (s <=? i)%nat with true by (symmetry; apply Nat.leb_le; lia).
        replace (i <? s + S (length v))%nat with (i <? S s + length v)%nat
          by (f_equal; lia).
        cbn [andb]. destruct (i <? S s + length v)%nat; [|ring].
        replace (i - s)%nat with (S (i - S s)) by lia. cbn [nth]. ring.
      * replace (s <=? i)%nat with false by (symmetry; apply Nat.leb_gt; lia).
        cbn [andb]. ring.
Qed.

Lemma np_sum_seq_nth (f : nat -> Q) (g : Q -> Q) v : forall s,
  (forall i, (i < length v)%nat -> (f (s + i)%nat == g (nth i v 0))%Q) ->
  (np_sum (map f (seq s (length v))) == np_sum (map g v))%Q.
Proof.
  induction v as [|x v IH]; intros s H; [reflexivity|].
  cbn [length seq map np_sum fold_right].
  change (fold_right Qplus 0%Q ?l) with (np_sum l).
  rewrite (IH (S s)).
  - specialize (H 0%nat ltac:(cbn; lia)). rewrite Nat.add_0_r in H. rewrite H. reflexivity.
  - intros i Hi. specialize (H (S i) ltac:(cbn; lia)).
    replace (S s + i)%nat with (s + S i)%nat by lia. exact H.
Qed.

Lemma sum_squares_eye v :
  (sum_squares (mat_vec (np_eye (length v)) v) == sum_squares v)%Q.
Proof.
  unfold sum_squares, mat_vec, np_eye. rewrite !map_map.
  apply (np_sum_seq_nth _ (fun x => x * x)%Q v 0).
  intros i Hi. cbn [Nat.add]. rewrite (dot_unit_row v 0 i).
  replace (0 <=? i)%nat with true by (symmetry; apply Nat.leb_le; lia).
  replace (i <? 0 + length v)%nat with true by (symmetry; apply Nat.ltb_lt; lia).
  rewrite Nat.sub_0_r. reflexivity.
Qed.

Lemma tikhonov_default_is_ridge h base eta b X :
  length (value_vector (h !! var_id b)) = shape1 X ->
  (eval_expr h (EAdd base
                  (EMul (EMul (EConst (inject_Z (2 * Z.of_nat (shape0 X)))) (EParam eta))
                        (ESumSquares (XMatMul (np_eye (shape1 X)) (XVar b)))))
   == eval_expr h base
      + 2 * inject_Z (Z.of_nat (shape0 X)) * value_scalar (h !! par_id eta)
        * sum_squares (value_vector (h !! var_id b)))%Q.
Proof.
  intros Hlen. rewrite eval_tikhonov_penalty. rewrite <- Hlen.
  rewrite sum_squares_eye. reflexivity.
Qed.


(** Conversely, an objective returned by the mixin always has this shape. *)
Lemma tikhonov_objective_inv (super_generate_objective : hook_objective)
  self X y b parameters auxiliaries obj :
  TikhonovMixin_generate_objective super_generate_objective
    self X y b parameters auxiliaries = inr obj ->
  exists base eta W,
    super_generate_objective self X y b parameters auxiliaries = inr base /\
    parameters ≫= (.!! "eta") = Some eta /\
    obj = EAdd base
            (EMul (EMul (EConst (inject_Z (2 * Z.of_nat (shape0 X)))) (EParam eta))
                  (ESumSquares (XMatMul W (XVar b)))) /\
    match assoc "tikhonov_w" self with
    | None | Some VNone => W = np_eye (shape1 X)
    | Some (VMatrix W') => W = W'
    | Some (VArray l) | Some (VList l) => W = [l]
    | Some _ => False
    end.
Proof.
  unfold TikhonovMixin_generate_objective. intros H.
  destruct (super_generate_objective self X y b parameters auxiliaries)
    as [e|base]; [discriminate|].
  destruct (parameters ≫= (.!! "eta")) as [eta|]; [|discriminate].
  destruct (assoc "tikhonov_w" self) as [w|]; cbn in H.
  - destruct w; cbn in H; try discriminate;
      injection H as <-; eexists _, _, _; repeat split; reflexivity.
  - injection H as <-. eexists _, _, _. repeat split; reflexivity.
Qed.

(* ===================================================================== *)
(** ** The problem assembler *)
(* ===================================================================== *)

Lemma build_frame_keeps {T} (f : state -> T) :
  (forall st v, f (alloc v st) = f st) ->
  (forall st e, f (log e st) = f st) ->
  build_frame (keeps f).
Proof. intros H1 H2. split; [apply _ | exact H1 | intros; apply H2]. Qed.

Lemma build_frame_grows : build_frame (grows is_build).
Proof.
  split; [apply _ | | ].
  - intros st v. now apply grows_same_trace.
  - intros st e He. now apply grows_log.
Qed.

Section Build.
Context (R : relation state) (HR : build_frame R).

#[local] Instance build_frame_preorder : PreOrder R.
Proof. exact (bf_preorder R HR). Qed.

Lemma preserves_new_Variable n : preserves R (new_Variable n).
Proof.
  unfold new_Variable. frame; try reflexivity.
  - apply (bf_alloc R HR).
  - now apply (bf_log R HR).
Qed.

Lemma preserves_new_Parameter {env} name v kw : preserves R (new_Parameter env name v kw).
Proof.
  unfold new_Parameter. frame; try reflexivity.
  - now apply (bf_log R HR).
  - apply (bf_alloc R HR).
Qed.

Lemma preserves_new_Problem o c : preserves R (new_Problem o c).
Proof.
  unfold new_Problem. frame; try reflexivity.
  - apply (bf_alloc R HR).
  - now apply (bf_log R HR).
Qed.

Lemma preserves_generate_params_constraints {env} name cs : forall v kw m,
  preserves R (generate_params_constraints env name cs v kw m).
Proof.
  induction cs as [|c rest IH]; intros v kw m; simpl.
  - apply preserves_ret; apply _.
  - destruct (constraint_kwargs c v kw) as [v1 kw1].
    apply preserves_bind; [apply _ | apply preserves_new_Parameter | intros p; apply IH].
Qed.

Lemma preserves_generate_params_loop {env} cvx items : forall m,
  preserves R (generate_params_loop env cvx items m).
Proof.
  induction items as [|[n v] rest IH]; intros m; simpl.
  - apply preserves_ret; apply _.
  - destruct (cvx !! n).
    + apply preserves_bind; [apply _ | apply preserves_generate_params_constraints |].
      intros m1. apply IH.
    + apply IH.
Qed.

Lemma preserves_generate_params {env} cls X y : preserves R (_generate_params env cls X y).
Proof.
  unfold _generate_params.
  apply preserves_bind; [apply _ | apply preserves_get; apply _ |].
  intros st. apply preserves_generate_params_loop.
Qed.

Lemma preserves_generate_problem {env} cls X y :
  (forall st c, R st (set_canonicals c st)) ->
  preserves R (generate_problem env cls X y).
Proof.
  intros Hset. unfold generate_problem.
  repeat first
    [ apply preserves_new_Variable
    | apply preserves_new_Problem
    | apply preserves_generate_params
    | frame_step ];
    try reflexivity; try (apply (bf_log R HR); reflexivity); try apply Hset.
Qed.

End Build.

#[global] Instance advances_preorder : PreOrder advances.
Proof. split; unfold advances; [intros st | intros a b c]; lia. Qed.

Lemma build_frame_advances : build_frame advances.
Proof. split; [apply _ | |]; intros; unfold advances; simpl; lia. Qed.

Lemma build_frame_parameter_events :
  forall P, (forall e, is_build e = true -> P e = true) -> build_frame (grows P).
Proof.
  intros P HP. split; [apply _ | | ].
  - intros st v. now apply grows_same_trace.
  - intros st e He. apply grows_log. now apply HP.
Qed.

Lemma generate_params_only_parameters {env} cls X y :
  preserves (grows is_parameter_event) (_generate_params env cls X y).
Proof.
  unfold _generate_params.
  apply preserves_bind; [apply _ | apply preserves_get; apply _ |].
  intros st0. generalize (∅ : gmap string cp_Parameter).
  generalize (match _cvx_parameter_constraints cls with Some cvx => cvx | None => ∅ end).
  intros cvx. induction (attrs st0) as [|[n v] rest IH]; intros m; simpl.
  - apply preserves_ret; apply _.
  - destruct (cvx !! n) as [ds|]; [|apply IH].
    apply preserves_bind; [apply _ | | intros m1; apply IH].
    generalize (map make_constraint ds) v no_kwargs m. clear.
    intros cs. induction cs as [|c cs IH]; intros v kw m; simpl.
    + apply preserves_ret; apply _.
    + destruct (constraint_kwargs c v kw) as [v1 kw1].
      apply preserves_bind; [apply _ | | intros p; apply IH].
      unfold new_Parameter. frame; try reflexivity.
      * now apply grows_log.
      * now apply grows_same_trace.
Qed.

Lemma new_Variable_run n st :
  new_Variable n st =
  (log (EvVariable (next_id st) n) (alloc VNone st),
   inr {| var_id := next_id st; var_len := n |}).
Proof. reflexivity. Qed.

Lemma new_Problem_run o c st :
  new_Problem o c st =
  (log (EvProblem (next_id st)) (alloc VNone st),
   inr {| prob_id := next_id st; prob_objective := o; prob_constraints := c |}).
Proof. reflexivity. Qed.

Lemma modify_run f st : modify f st = (f st, inr tt).
Proof. reflexivity. Qed.

Lemma get_run st : get st = (st, inr st).
Proof. reflexivity. Qed.

Lemma ret_run {A} (a : A) st : (mret a : M A) st = (st, inr a).
Proof. reflexivity. Qed.

Lemma lift_run {A} (r : exn + A) st : lift r st = (st, r).
Proof. reflexivity. Qed.

Lemma getattr_run name st v :
  assoc name (attrs st) = Some v -> getattr name st = (st, inr v).
Proof. intros H. unfold getattr. erewrite bind_inr by apply get_run. now rewrite H. Qed.

(** One step of a run: the first call of a bind returns. *)
Ltac run_with tac := erewrite bind_inr by tac; cbv beta.

Ltac run_step :=
  first
    [ run_with ltac:(apply modify_run)
    | run_with ltac:(apply get_run)
    | run_with ltac:(apply ret_run)
    | run_with ltac:(apply new_Variable_run)
    | run_with ltac:(apply new_Problem_run)
    | run_with ltac:(apply new_Parameter_run) ].

Lemma generate_problem_run {env} cls X y st stp ps aux obj cons :
  let beta := {| var_id := next_id st; var_len := shape1 X |} in
  _generate_params env cls X y
    (log EvGenerateParams (log (EvVariable (next_id st) (shape1 X)) (alloc VNone st)))
  = (stp, inr ps) ->
  _generate_auxiliaries cls (attrs st) X y beta ps = inr aux ->
  _generate_objective cls (attrs st) X y beta (Some ps) aux = inr obj ->
  _generate_constraints cls (attrs st) X y beta (Some ps) aux = inr cons ->
  generate_problem env cls X y st =
  (set_canonicals
     {| problem := {| prob_id := next_id stp; prob_objective := Minimize obj;
                      prob_constraints := cons |};
        objective := obj; beta := beta; parameters := Some ps;
        auxiliaries := aux; constraints := cons |}
     (log (EvProblem (next_id stp))
        (alloc VNone (log EvConstraints (log EvObjective (log EvAuxiliaries stp))))),
   inr tt).
Proof.
  intros beta Hps Haux Hobj Hcons.
  assert (Hattrs : attrs stp = attrs st).
  { apply (preserves_generate_params (keeps attrs)) in Hps; [exact Hps|].
    apply build_frame_keeps; reflexivity. }
  unfold generate_problem.
  run_step. run_step.
  run_with ltac:(exact Hps).
  run_step. run_step.
  cbn [attrs log]. rewrite Hattrs. fold beta.
  run_with ltac:(rewrite Haux; apply lift_run).
  run_step.
  run_with ltac:(rewrite Hobj; apply lift_run).
  run_step.
  run_with ltac:(rewrite Hcons; apply lift_run).
  run_step.
  reflexivity.
Qed.

(** The calls a successful build makes, in order. *)
Lemma generate_problem_calls {env} cls X y st stp ps aux obj cons :
  let b := {| var_id := next_id st; var_len := shape1 X |} in
  _generate_params env cls X y
    (log EvGenerateParams (log (EvVariable (next_id st) (shape1 X)) (alloc VNone st)))
  = (stp, inr ps) ->
  _generate_auxiliaries cls (attrs st) X y b ps = inr aux ->
  _generate_objective cls (attrs st) X y b (Some ps) aux = inr obj ->
  _generate_constraints cls (attrs st) X y b (Some ps) aux = inr cons ->
  exists st' pevs,
    generate_problem env cls X y st = (st', inr tt) /\
    calls_since st st' =
      [EvVariable (next_id st) (shape1 X); EvGenerateParams] ++ pevs ++
      [EvAuxiliaries; EvObjective; EvConstraints; EvProblem (next_id stp)] /\
    forallb is_parameter_event pevs = true.
Proof.
  intros b Hps Haux Hobj Hcons.
  pose proof (generate_problem_run cls X y st stp ps aux obj cons Hps Haux Hobj Hcons) as Hrun.
  pose proof (generate_params_only_parameters cls X y _ _ _ Hps) as [pevs [Htr Hpevs]].
  eexists _, pevs. split; [exact Hrun|]. split; [|exact Hpevs].
  unfold calls_since. cbn [trace set_canonicals log alloc].
  rewrite Htr. cbn [trace log alloc].
  rewrite <- !app_assoc. rewrite drop_app_length. reflexivity.
Qed.

(** C6. [generate_problem] on an [n_samples x n_features] matrix creates a
    new decision variable of length [n_features], then calls the parameter
    translator, then the hooks for auxiliaries, objective and constraints in
    this order, then builds the problem [Minimize(objective)] subject to the
    constraints, and stores a new descriptor made of exactly these pieces;
    nothing else of the estimator changes. *)
Theorem generate_problem_assembles
  (env : Env) (cls : CVXEstimatorClass) (X : matrix) (y : vector) (st stp : state)
  (ps : gmap string cp_Parameter) (aux : option (gmap string expr))
  (obj : expr) (cons : option (list cvx_constraint)) :
  let b := {| var_id := next_id st; var_len := shape1 X |} in
  _generate_params env cls X y
    (log EvGenerateParams (log (EvVariable (next_id st) (shape1 X)) (alloc VNone st)))
  = (stp, inr ps) ->
  _generate_auxiliaries cls (attrs st) X y b ps = inr aux ->
  _generate_objective cls (attrs st) X y b (Some ps) aux = inr obj ->
  _generate_constraints cls (attrs st) X y b (Some ps) aux = inr cons ->
  exists st' pevs,
    generate_problem env cls X y st = (st', inr tt) /\
    var_len b = shape1 X /\
    canonicals_ st' =
      Some {| problem := {| prob_id := next_id stp; prob_objective := Minimize obj;
                            prob_constraints := cons |};
              objective := obj; beta := b; parameters := Some ps;
              auxiliaries := aux; constraints := cons |} /\
    calls_since st st' =
      [EvVariable (next_id st) (shape1 X); EvGenerateParams] ++ pevs ++
      [EvAuxiliaries; EvObjective; EvConstraints; EvProblem (next_id stp)] /\
    forallb is_parameter_event pevs = true /\
    next_id st < next_id stp /\
    (forall c0, canonicals_ st = Some c0 ->
                prob_id (problem c0) < next_id st \/ var_id (beta c0) < next_id st ->
                canonicals_ st' <> Some c0) /\
    attrs st' = attrs st /\ cached_X_ st' = cached_X_ st /\
    cached_y_ st' = cached_y_ st /\ coef_ st' = coef_ st /\
    intercept_ st' = intercept_ st.
Proof.
  intros b Hps Haux Hobj Hcons.
  destruct (generate_problem_calls cls X y st stp ps aux obj cons Hps Haux Hobj Hcons)
    as (st' & pevs & Hrun & Hcalls & Hpevs).
  pose proof (generate_problem_run cls X y st stp ps aux obj cons Hps Haux Hobj Hcons) as Hst'.
  rewrite Hrun in Hst'. injection Hst' as Hst'.
  pose proof (preserves_generate_params advances build_frame_advances cls X y _ _ _ Hps) as Hadv.
  unfold advances in Hadv. cbn in Hadv.
  assert (Hk : forall {T} (f : state -> T),
             (forall s v, f (alloc v s) = f s) -> (forall s e, f (log e s) = f s) ->
             f stp = f st).
  { intros T f H1 H2.
    pose proof (preserves_generate_params (keeps f) (build_frame_keeps f H1 H2)
                  cls X y _ _ _ Hps) as Hf.
    unfold keeps in Hf. rewrite Hf, !H2, H1. reflexivity. }
  exists st', pevs. split; [exact Hrun|]. split; [reflexivity|].
  subst st'. split; [reflexivity|]. split; [exact Hcalls|]. split; [exact Hpevs|].
  split; [lia|]. split.
  - intros c0 Hc0 Hold. cbn [canonicals_ set_canonicals]. intros [= <-].
    cbn in Hold. lia.
  - cbn [attrs cached_X_ cached_y_ coef_ intercept_ set_canonicals log alloc].
    repeat split; apply Hk; reflexivity.
Qed.

(* ===================================================================== *)
(** ** Frames of the steps of fit *)
(* ===================================================================== *)

(** Validation and preprocessing never write to the estimator. *)
Lemma prepare_data_pure env X y sw : preserves eq (prepare_data env X y sw).
Proof.
  unfold prepare_data. frame; reflexivity.
Qed.

Lemma validate_params_pure cls X y : preserves eq (_validate_params cls X y).
Proof. unfold _validate_params. frame; reflexivity. Qed.

Lemma get_solver_options_pure : preserves eq get_solver_options.
Proof. unfold get_solver_options. frame; reflexivity. Qed.

Lemma push_frame_keeps {T} (f : state -> T) :
  (forall st id v, f (store id v st) = f st) ->
  (forall st e, f (log e st) = f st) ->
  push_frame (keeps f).
Proof. intros H1 H2. split; [apply _ | exact H1 | intros; apply H2]. Qed.

Lemma preserves_set_param_values R (HR : push_frame R) cls :
  preserves R (_set_param_values cls).
Proof.
  pose proof (pf_preorder R HR) as HP.
  unfold _set_param_values.
  apply preserves_bind; [apply _ | apply preserves_get; apply _ |].
  intros st0. induction (attrs st0) as [|[n v] rest IH]; simpl.
  - apply preserves_ret; apply _.
  - destruct (_cvx_parameter_constraints cls) as [cvx|]; [|apply preserves_raise; apply _].
    destruct (cvx !! n); [|exact IH].
    unfold getattr_parameter.
    frame; try reflexivity; try exact IH.
    + apply (pf_store R HR).
    + apply (pf_log R HR).
Qed.

Lemma solve_frame_keeps {T} (f : state -> T) :
  (forall st id v, f (store id v st) = f st) ->
  (forall st e, f (log e st) = f st) ->
  solve_frame (keeps f).
Proof. intros H1 H2. split; [apply _ | exact H1 | intros; apply H2]. Qed.

Lemma preserves_solve R (HR : solve_frame R) env X y opts :
  preserves R (_solve env X y opts).
Proof.
  pose proof (sf_preorder R HR) as HP.
  unfold _solve. frame; try reflexivity.
  - apply (sf_log R HR).
  - apply (sf_store R HR).
Qed.

Lemma preserves_set_intercept R `{!PreOrder R} env xo yo xs :
  (forall st c, R st (set_coef c st)) ->
  (forall st c, R st (set_intercept c st)) ->
  preserves R (_set_intercept env xo yo xs).
Proof.
  intros H1 H2. unfold _set_intercept. frame; try reflexivity; auto.
Qed.

(** The steps up to and including the warm-start block. *)
Lemma preserves_build_if_needed {env} R (HR : build_frame R) cls X y :
  (forall st c, R st (set_canonicals c st)) ->
  preserves R (build_if_needed env cls X y).
Proof.
  intros Hset. pose proof (bf_preorder R HR) as HP.
  unfold build_if_needed.
  apply preserves_bind; [apply _ | apply preserves_get; apply _ |].
  intros st0. destruct (canonicals_ st0).
  - apply preserves_bind; [apply _ | apply preserves_getattr; apply _ |].
    intros w. destruct (is_False w).
    + now apply preserves_generate_problem.
    + apply preserves_ret; apply _.
  - now apply preserves_generate_problem.
Qed.

Lemma preserves_solve_and_store R (HS : solve_frame R) env X y xo yo xs :
  (forall st c, R st (set_coef c st)) ->
  (forall st c, R st (set_intercept c st)) ->
  preserves R (solve_and_store env X y xo yo xs).
Proof.
  intros Hco Hi. pose proof (sf_preorder R HS) as HPre.
  unfold solve_and_store.
  apply preserves_bind; [apply _ | | intros opts].
  { intros st st' r E. apply get_solver_options_pure in E. subst. reflexivity. }
  apply preserves_bind; [apply _ | now apply preserves_solve | intros coef].
  apply preserves_bind; [apply _ | apply preserves_modify; auto | intros _].
  now apply preserves_set_intercept.
Qed.

(* ===================================================================== *)
(** ** The build decision of fit *)
(* ===================================================================== *)



Lemma build_if_needed_reuses {env} cls X y st c :
  canonicals_ st = Some c ->
  assoc "warm_start" (attrs st) = Some (VBool true) ->
  build_if_needed env cls X y st = (st, inr tt).
Proof.
  intros Hc Hw. unfold build_if_needed. run_step. rewrite Hc.
  run_with ltac:(apply getattr_run; exact Hw). reflexivity.
Qed.


Lemma build_if_needed_cold {env} cls X y st :
  assoc "warm_start" (attrs st) = Some (VBool false) ->
  build_if_needed env cls X y st = generate_problem env cls X y st.
Proof.
  intros Hw. unfold build_if_needed. run_step.
  destruct (canonicals_ st); [|reflexivity].
  run_with ltac:(apply getattr_run; exact Hw). reflexivity.
Qed.

Lemma warm_start_block_cold {env} cls X y st :
  assoc "warm_start" (attrs st) = Some (VBool false) ->
  warm_start_block env cls X y st = (st, inr tt).
Proof.
  intros Hw. unfold warm_start_block.
  run_with ltac:(apply getattr_run; exact Hw). reflexivity.
Qed.

Lemma warm_start_block_warm {env} cls X y st :
  assoc "warm_start" (attrs st) = Some (VBool true) ->
  warm_start_block env cls X y st =
  (if data_unchanged st X y then _set_param_values cls else generate_problem env cls X y)
    (cache_data X y st).
Proof.
  intros Hw. unfold warm_start_block.
  run_with ltac:(apply getattr_run; exact Hw). cbn [is_True].
  run_step. unfold data_unchanged, cache_data.
  destruct (cached_X_ st) as [cX|] eqn:EX, (cached_y_ st) as [cy|] eqn:Ey;
    repeat run_step; cbn [cached_X_ cached_y_ set_cached_X set_cached_y];
    rewrite ?EX, ?Ey; repeat run_step;
    cbn [cached_X_ cached_y_ set_cached_X set_cached_y default];
    rewrite ?EX, ?Ey; cbn [default]; unfold id;
    repeat match goal with
           | |- context [array_equal2 ?a ?b] => destruct (array_equal2 a b)
           | |- context [array_equal1 ?a ?b] => destruct (array_equal1 a b)
           end; reflexivity.
Qed.

Lemma cache_data_present X y st cX cy :
  cached_X_ st = Some cX -> cached_y_ st = Some cy -> cache_data X y st = st.
Proof. intros HX Hy. unfold cache_data. now rewrite HX, Hy. Qed.


Lemma cache_data_frame X y st :
  attrs (cache_data X y st) = attrs st /\
  canonicals_ (cache_data X y st) = canonicals_ st /\
  coef_ (cache_data X y st) = coef_ st /\
  intercept_ (cache_data X y st) = intercept_ st /\
  heap (cache_data X y st) = heap st /\
  next_id (cache_data X y st) = next_id st /\
  trace (cache_data X y st) = trace st.
Proof.
  unfold cache_data.
  destruct (cached_X_ st) eqn:EX, (cached_y_ st) eqn:Ey; cbn; rewrite ?Ey; cbn;
    repeat split; reflexivity.
Qed.


Lemma warm_start_block_not_warm {env} cls X y st w :
  assoc "warm_start" (attrs st) = Some w -> is_True w = false ->
  warm_start_block env cls X y st = (st, inr tt).
Proof.
  intros Hw Hf. unfold warm_start_block.
  run_with ltac:(apply getattr_run; exact Hw). now rewrite Hf.
Qed.

Lemma is_True_inv w : is_True w = true -> w = VBool true.
Proof. destruct w as [| [|] | | | | | | | |]; try discriminate; reflexivity. Qed.

(** The warm-start block under a relation that the build, the push and a
    first filling of the cache respect. *)
Lemma preserves_warm_start_block {env} R (HB : build_frame R) (HP : push_frame R) cls X y :
  (forall st c, R st (set_canonicals c st)) ->
  (forall st c, cached_X_ st = None -> R st (set_cached_X c st)) ->
  (forall st c, cached_y_ st = None -> R st (set_cached_y c st)) ->
  preserves R (warm_start_block env cls X y).
Proof.
  intros Hc HX Hy. pose proof (bf_preorder R HB) as HPre.
  intros st st' r E.
  destruct (assoc "warm_start" (attrs st)) as [w|] eqn:Ew.
  - destruct (is_True w) eqn:Et.
    + apply is_True_inv in Et. subst w.
      rewrite warm_start_block_warm in E by exact Ew.
      transitivity (cache_data X y st).
      * unfold cache_data. destruct (cached_X_ st) eqn:EX.
        -- destruct (cached_y_ st) eqn:Ey; [reflexivity | now apply Hy].
        -- transitivity (set_cached_X X st); [now apply HX|].
           destruct (cached_y_ (set_cached_X X st)) eqn:Ey; [reflexivity | now apply Hy].
      * destruct (data_unchanged st X y).
        -- eapply preserves_set_param_values; eauto.
        -- eapply preserves_generate_problem; eauto.
    + rewrite (warm_start_block_not_warm cls X y st w Ew Et) in E.
      injection E as <- _. reflexivity.
  - unfold warm_start_block, getattr in E.
    unfold mbind at 1, M_bind, bind in E. unfold mbind at 1, M_bind, bind in E.
    cbn [get] in E. rewrite Ew in E. injection E as <- _. reflexivity.
Qed.

(** Everything in [fit] after the preprocessing. *)
Lemma preserves_fit_prepared R (HB : build_frame R) (HP : push_frame R)
  (HS : solve_frame R) env cls X y xo yo xs :
  (forall st c, R st (set_canonicals c st)) ->
  (forall st c, cached_X_ st = None -> R st (set_cached_X c st)) ->
  (forall st c, cached_y_ st = None -> R st (set_cached_y c st)) ->
  (forall st c, R st (set_coef c st)) ->
  (forall st c, R st (set_intercept c st)) ->
  preserves R (fit_prepared env cls X y xo yo xs).
Proof.
  intros Hc HX Hy Hco Hi. pose proof (bf_preorder R HB) as HPre.
  unfold fit_prepared.
  apply preserves_bind; [apply _ | | intros _].
  { intros st st' r E. apply validate_params_pure in E. subst. reflexivity. }
  apply preserves_bind; [apply _ | now apply preserves_build_if_needed | intros _].
  apply preserves_bind; [apply _ | now apply preserves_warm_start_block | intros _].
  now apply preserves_solve_and_store.
Qed.

Lemma preserves_fit R (HB : build_frame R) (HP : push_frame R)
  (HS : solve_frame R) env cls X y sw :
  (forall st c, R st (set_canonicals c st)) ->
  (forall st c, cached_X_ st = None -> R st (set_cached_X c st)) ->
  (forall st c, cached_y_ st = None -> R st (set_cached_y c st)) ->
  (forall st c, R st (set_coef c st)) ->
  (forall st c, R st (set_intercept c st)) ->
  preserves R (fit env cls X y sw).
Proof.
  intros Hc HX Hy Hco Hi. pose proof (bf_preorder R HB) as HPre.
  unfold fit.
  apply preserves_bind; [apply _ | | ].
  { intros st st' r E. apply prepare_data_pure in E. subst. reflexivity. }
  intros [[[[X' y'] xo] yo] xs]. now apply preserves_fit_prepared.
Qed.

(** The membership test of [_set_param_values] on a class without
    solver-parameterized hyperparameters. *)
Lemma set_param_values_None cls st :
  _cvx_parameter_constraints cls = None ->
  attrs st <> [] ->
  _set_param_values cls st =
  (st, inl (TypeError "argument of type NoneType is not iterable")).
Proof.
  intros Hcvx Hne. unfold _set_param_values. run_step.
  destruct (attrs st) as [|[n v] rest]; [contradiction|].
  cbn. now rewrite Hcvx.
Qed.

Lemma assoc_nonempty name l v : assoc name l = Some v -> l <> [].
Proof. intros H ->. discriminate. Qed.

(** C10. On an estimator class that declares no solver-parameterized
    hyperparameters ([_cvx_parameter_constraints] is None), a fit with
    warm_start enabled, an existing problem descriptor and unchanged data
    reaches [_set_param_values], whose membership test on None raises a
    TypeError: the fit fails, the solver is not called and no coefficients
    are produced. *)
Theorem warm_refit_without_cvx_parameters_raises
  (env : Env) (cls : CVXEstimatorClass) (st : state) (c : CVXCanonicals)
  (X : matrix) (y : vector) (sample_weight : option vector)
  (X' : matrix) (y' : vector) (X_offset : vector) (y_offset : Q) (X_scale : vector) :
  _cvx_parameter_constraints cls = None ->
  assoc "warm_start" (attrs st) = Some (VBool true) ->
  canonicals_ st = Some c ->
  prepare_data env X y sample_weight st = (st, inr (X', y', X_offset, y_offset, X_scale)) ->
  _validate_params cls X' y' st = (st, inr tt) ->
  data_unchanged st X' y' = true ->
  exists st',
    fit env cls X y sample_weight st =
      (st', inl (TypeError "argument of type NoneType is not iterable")) /\
    solver_not_invoked st st' /\
    canonicals_ st' = Some c /\
    coef_ st' = coef_ st /\ intercept_ st' = intercept_ st.
Proof.
  intros Hcvx Hw Hc Hprep Hval Hsame.
  exists (cache_data X' y' st).
  destruct (cache_data_frame X' y' st) as (Ha & Hcan & Hco & Hi & _ & _ & Htr).
  split; [|repeat split].
  - unfold fit. run_with ltac:(exact Hprep).
    unfold fit_prepared. run_with ltac:(exact Hval).
    run_with ltac:(eapply build_if_needed_reuses; eauto).
    eapply bind_inl. rewrite warm_start_block_warm by exact Hw. rewrite Hsame.
    apply set_param_values_None; [exact Hcvx|].
    rewrite Ha. eapply assoc_nonempty; eauto.
  - unfold solver_not_invoked, calls_since. rewrite Htr, drop_all. reflexivity.
  - congruence.
  - exact Hco.
  - exact Hi.
Qed.

(* ===================================================================== *)
(** ** Handles of a newly built descriptor *)
(* ===================================================================== *)





(* ===================================================================== *)
(** ** The warm-start push of parameter values *)
(* ===================================================================== *)




Lemma fit_warm_run env cls st c X y sw X' y' xo yo xs :
  assoc "warm_start" (attrs st) = Some (VBool true) ->
  canonicals_ st = Some c ->
  prepare_data env X y sw st = (st, inr (X', y', xo, yo, xs)) ->
  _validate_params cls X' y' st = (st, inr tt) ->
  fit env cls X y sw st =
  ((if data_unchanged st X' y' then _set_param_values cls else generate_problem env cls X' y');;
   solve_and_store env X' y' xo yo xs) (cache_data X' y' st).
Proof.
  intros Hw Hc Hprep Hval. unfold fit. run_with ltac:(exact Hprep).
  unfold fit_prepared. run_with ltac:(exact Hval).
  run_with ltac:(eapply build_if_needed_reuses; eauto).
  unfold mbind, M_bind, bind. now rewrite warm_start_block_warm.
Qed.




#[global] Instance writes_only_beta_preorder c : PreOrder (writes_only_beta c).
Proof.
  split.
  - intros st H. auto.
  - intros s1 s2 s3 H12 H23 H1. destruct (H12 H1) as [H2 Hh12].
    destruct (H23 H2) as [H3 Hh23]. split; [exact H3|].
    intros j Hj. now rewrite Hh23, Hh12.
Qed.





(* ===================================================================== *)
(** ** The warm-start cache *)
(* ===================================================================== *)

#[global] Instance cache_kept_preorder : PreOrder cache_kept.
Proof.
  split.
  - intros st. split; auto.
  - intros a b c [H1 H2] [H3 H4]. split; auto.
Qed.

(** Once cached, the training data are never replaced: no path of [fit]
    assigns [cached_X_] or [cached_y_] when the attribute exists. *)
Lemma fit_keeps_cache env cls X y sw : preserves cache_kept (fit env cls X y sw).
Proof.
  apply preserves_fit.
  - split; [apply _ | |]; intros; split; auto.
  - split; [apply _ | |]; intros; split; auto.
  - split; [apply _ | |]; intros; split; auto.
  - intros; split; auto.
  - intros st c H. split; cbn; [congruence | auto].
  - intros st c H. split; cbn; [auto | congruence].
  - intros; split; auto.
  - intros; split; auto.
Qed.

(** A build that returns went through every step. *)
Lemma generate_problem_inr_inv {env} cls X y st st' :
  generate_problem env cls X y st = (st', inr tt) ->
  exists stp ps aux obj cons,
    let b := {| var_id := next_id st; var_len := shape1 X |} in
    _generate_params env cls X y
      (log EvGenerateParams (log (EvVariable (next_id st) (shape1 X)) (alloc VNone st)))
    = (stp, inr ps) /\
    _generate_auxiliaries cls (attrs st) X y b ps = inr aux /\
    _generate_objective cls (attrs st) X y b (Some ps) aux = inr obj /\
    _generate_constraints cls (attrs st) X y b (Some ps) aux = inr cons.
Proof.
  intros Hrun.
  destruct (_generate_params env cls X y
              (log EvGenerateParams (log (EvVariable (next_id st) (shape1 X)) (alloc VNone st))))
    as [stp [e|ps]] eqn:Hps.
  { exfalso. revert Hrun. unfold generate_problem.
    run_step. run_step. erewrite bind_inl by exact Hps. discriminate. }
  pose proof (preserves_generate_params (keeps attrs)
                (build_frame_keeps attrs (fun _ _ => eq_refl) (fun _ _ => eq_refl))
                cls X y _ _ _ Hps) as Hattrs.
  unfold keeps in Hattrs. cbn in Hattrs.
  set (b := {| var_id := next_id st; var_len := shape1 X |}).
  destruct (_generate_auxiliaries cls (attrs st) X y b ps) as [e|aux] eqn:Haux.
  { exfalso. revert Hrun. unfold generate_problem.
    run_step. run_step. run_with ltac:(exact Hps). run_step. run_step.
    cbn [attrs log]. rewrite Hattrs. fold b.
    erewrite bind_inl by (rewrite Haux; apply lift_run). discriminate. }
  destruct (_generate_objective cls (attrs st) X y b (Some ps) aux) as [e|obj] eqn:Hobj.
  { exfalso. revert Hrun. unfold generate_problem.
    run_step. run_step. run_with ltac:(exact Hps). run_step. run_step.
    cbn [attrs log]. rewrite Hattrs. fold b.
    run_with ltac:(rewrite Haux; apply lift_run). run_step.
    erewrite bind_inl by (rewrite Hobj; apply lift_run). discriminate. }
  destruct (_generate_constraints cls (attrs st) X y b (Some ps) aux) as [e|cons] eqn:Hcons.
  { exfalso. revert Hrun. unfold generate_problem.
    run_step. run_step. run_with ltac:(exact Hps). run_step. run_step.
    cbn [attrs log]. rewrite Hattrs. fold b.
    run_with ltac:(rewrite Haux; apply lift_run). run_step.
    run_with ltac:(rewrite Hobj; apply lift_run). run_step.
    erewrite bind_inl by (rewrite Hcons; apply lift_run). discriminate. }
  exists stp, ps, aux, obj, cons. auto.
Qed.

Lemma rebuilt_generate_problem {env} cls X y st st' :
  generate_problem env cls X y st = (st', inr tt) ->
  rebuilt st st' = true /\ is_Some (canonicals_ st').
Proof.
  intros Hrun.
  destruct (generate_problem_inr_inv cls X y st st' Hrun)
    as (stp & ps & aux & obj & cons & Hps & Haux & Hobj & Hcons).
  destruct (generate_problem_calls cls X y st stp ps aux obj cons Hps Haux Hobj Hcons)
    as (st2 & pevs & Hrun2 & Hcalls & _).
  rewrite Hrun in Hrun2. injection Hrun2 as <-.
  split.
  2:{ rewrite (generate_problem_run cls X y st stp ps aux obj cons Hps Haux Hobj Hcons) in Hrun.
      injection Hrun as <-. cbn. eauto. }
  unfold rebuilt. rewrite Hcalls. rewrite !existsb_app. cbn.
  now rewrite !orb_true_r.
Qed.


(** The descriptor built for a class that uses the mixin minimizes the
    objective of the next class in the chain plus the penalty. *)
Lemma tikhonov_descriptor_objective {env} base_cls X y st st' :
  generate_problem env (TikhonovMixin base_cls) X y st = (st', inr tt) ->
  exists c base eta W,
    canonicals_ st' = Some c /\
    prob_objective (problem c) = Minimize (objective c) /\
    _generate_objective base_cls (attrs st) X y (beta c) (parameters c) (auxiliaries c)
      = inr base /\
    parameters c ≫= (.!! "eta") = Some eta /\
    objective c =
      EAdd base
        (EMul (EMul (EConst (inject_Z (2 * Z.of_nat (shape0 X)))) (EParam eta))
              (ESumSquares (XMatMul W (XVar (beta c))))).
Proof.
  intros Hrun.
  destruct (generate_problem_inr_inv _ X y st st' Hrun)
    as (stp & ps & aux & obj & cons & Hps & Haux & Hobj & Hcons).
  rewrite (generate_problem_run _ X y st stp ps aux obj cons Hps Haux Hobj Hcons) in Hrun.
  injection Hrun as <-.
  cbn [_generate_objective TikhonovMixin] in Hobj.
  apply tikhonov_objective_inv in Hobj as (base & eta & W & Hbase & Heta & -> & _).
  eexists _, base, eta, W. cbn. repeat split; auto.
Qed.

Lemma rebuilt_later st st1 st2 P :
  rebuilt st st1 = true -> grows P st st1 -> grows P st1 st2 -> rebuilt st st2 = true.
Proof.
  unfold rebuilt, calls_since.
  intros Hr [e1 [H1 _]] [e2 [H2 _]]. rewrite H1, drop_app_length in Hr.
  rewrite H2, H1, <- app_assoc, drop_app_length, existsb_app, Hr. reflexivity.
Qed.


(** With warm_start enabled and cached data that differ from the new data,
    [fit] rebuilds the descriptor but leaves the cache as it was. *)
Lemma fit_changed_data_rebuilds_keeps_cache
  env cls st c cX cy X y sw X' y' xo yo xs st' :
  assoc "warm_start" (attrs st) = Some (VBool true) ->
  canonicals_ st = Some c ->
  cached_X_ st = Some cX -> cached_y_ st = Some cy ->
  prepare_data env X y sw st = (st, inr (X', y', xo, yo, xs)) ->
  _validate_params cls X' y' st = (st, inr tt) ->
  array_equal2 cX X' && array_equal1 cy y' = false ->
  fit env cls X y sw st = (st', inr tt) ->
  rebuilt st st' = true /\ cached_X_ st' = Some cX /\ cached_y_ st' = Some cy.
Proof.
  intros Hw Hc HcX Hcy Hprep Hval Hdiff Hfit.
  destruct (fit_keeps_cache env cls X y sw st st' _ Hfit) as [HkX Hky].
  split; [|split; auto].
  rewrite (fit_warm_run env cls st c X y sw X' y' xo yo xs Hw Hc Hprep Hval) in Hfit.
  rewrite (cache_data_present X' y' st cX cy HcX Hcy) in Hfit.
  assert (Hd : data_unchanged st X' y' = false).
  { unfold data_unchanged. now rewrite HcX, Hcy. }
  rewrite Hd in Hfit. unfold mbind, M_bind, bind in Hfit.
  destruct (generate_problem env cls X' y' st) as [stg [e|[]]] eqn:Hg; [discriminate|].
  destruct (rebuilt_generate_problem cls X' y' st stg Hg) as [Hreb _].
  eapply (rebuilt_later st stg st' (fun _ => true)); [exact Hreb | |].
  - eapply (preserves_generate_problem (grows (fun _ => true))); [| |exact Hg].
    + apply build_frame_parameter_events. reflexivity.
    + intros. now apply grows_same_trace.
  - assert (HS : solve_frame (grows (fun _ => true))).
    { split; [apply _ | |]; intros; [now apply grows_same_trace | now apply grows_log]. }
    eapply (preserves_solve_and_store _ HS); try exact Hfit;
      intros; now apply grows_same_trace.
Qed.

(** C2, at a failing input.  A ridge estimator with warm_start enabled is
    fitted on [X1] and then on [X2], which differs from [X1] in one entry.
    The second fit succeeds and rebuilds the descriptor, but the cache still
    holds [X1], not the new data; a third fit, on [X1] again, therefore
    finds the data unchanged and solves the problem that was built from
    [X2]. *)
Theorem fit_changed_data_leaves_cache_stale :
  outcome (fit Example.env Example.Ridge Example.X1 Example.y1 None) Example.warm0 = inr tt /\
  cached_X_ Example.warm1 = Some Example.X1 /\
  array_equal2 Example.X1 Example.X2 = false /\
  outcome (fit Example.env Example.Ridge Example.X2 Example.y1 None) Example.warm1 = inr tt /\
  rebuilt Example.warm1 Example.warm2 = true /\
  cached_X_ Example.warm2 = Some Example.X1 /\
  cached_X_ Example.warm2 <> Some Example.X2 /\
  outcome (fit Example.env Example.Ridge Example.X1 Example.y1 None) Example.warm2 = inr tt /\
  rebuilt Example.warm2 Example.warm3 = false /\
  (canonicals_ Example.warm3 ≫= Example.built_from) = Some Example.X2.
Proof.
  repeat split; try (vm_compute; reflexivity).
  vm_compute. discriminate.
Qed.

(* ===================================================================== *)
(** ** The first warm-started fit *)
(* ===================================================================== *)



(* ===================================================================== *)
(** ** Sample weights *)
(* ===================================================================== *)

Lemma np_sum_scale l k : (np_sum (map (fun w => w * k) l) == np_sum l * k)%Q.
Proof.
  induction l as [|a l IH]; cbn.
  - ring.
  - unfold np_sum in IH. rewrite IH. ring.
Qed.

Lemma x_sum_Finite l : x_sum (map Finite l) = Finite (np_sum l).
Proof.
  induction l as [|a l IH]; cbn; [reflexivity|].
  unfold x_sum in IH. now rewrite IH.
Qed.

Lemma rescale_sample_weight_finite sw X :
  ~ (np_sum sw == 0)%Q ->
  rescale_sample_weight sw X =
  map Finite (map (fun w => w * (inject_Z (Z.of_nat (shape0 X)) / np_sum sw))%Q sw).
Proof.
  intros Hs. unfold rescale_sample_weight, x_div.
  destruct (Qeq_bool (np_sum sw) 0) eqn:E.
  - apply Qeq_bool_iff in E. contradiction.
  - rewrite map_map. reflexivity.
Qed.

Lemma rescale_sample_weight_sum sw X :
  ~ (np_sum sw == 0)%Q ->
  exists s, x_sum (rescale_sample_weight sw X) = Finite s /\
            (s == inject_Z (Z.of_nat (shape0 X)))%Q.
Proof.
  intros Hs. rewrite rescale_sample_weight_finite by exact Hs.
  rewrite x_sum_Finite. eexists. split; [reflexivity|].
  rewrite np_sum_scale. field. exact Hs.
Qed.

Lemma prepare_data_weighted_run env st X y sw X1 y1 sw1 cp fi Xp yp xo yo xs Xr yr :
  _validate_data env X y = inr (X1, y1) ->
  _check_sample_weight env sw X1 = inr sw1 ->
  assoc "copy_X" (attrs st) = Some cp ->
  assoc "fit_intercept" (attrs st) = Some fi ->
  _preprocess_data env X1 y1 cp fi (Some (rescale_sample_weight sw1 X1))
    = (Xp, yp, xo, yo, xs) ->
  _rescale_data env Xp yp (rescale_sample_weight sw1 X1) = (Xr, yr) ->
  prepare_data env X y (Some sw) st = (st, inr (Xr, yr, xo, yo, xs)).
Proof.
  intros Hv Hc Hcp Hfi Hpre Hres. unfold prepare_data.
  run_with ltac:(rewrite Hv; apply lift_run). cbn beta iota.
  run_with ltac:(run_with ltac:(rewrite Hc; apply lift_run); apply ret_run).
  run_with ltac:(apply getattr_run; exact Hcp).
  run_with ltac:(apply getattr_run; exact Hfi).
  rewrite Hpre, Hres. reflexivity.
Qed.

(** C8 as stated fails for weights that sum to zero: for three samples with
    weights [0, 0, 0], which pass the checks, the factor
    [n_samples / sum] is not finite and the rescaled weights are nan, so
    their sum is not [n_samples]. *)
Lemma rescale_zero_weights_not_normalised :
  _validate_data Example.env Example.X1 Example.y1 = inr (Example.X1, Example.y1) /\
  _check_sample_weight Example.env [0; 0; 0]%Q Example.X1 = inr [0; 0; 0]%Q /\
  length [0; 0; 0]%Q = shape0 Example.X1 /\
  rescale_sample_weight [0; 0; 0]%Q Example.X1 = [NaN; NaN; NaN] /\
  ~ exists s, x_sum (rescale_sample_weight [0; 0; 0]%Q Example.X1) = Finite s /\
              (s == inject_Z (Z.of_nat (shape0 Example.X1)))%Q.
Proof.
  repeat split; try reflexivity.
  intros [s [H _]]. vm_compute in H. discriminate.
Qed.

(** C8, amended.  For a fit with sample weights that pass the checks and
    whose sum is not zero, the weights are first rescaled so that (in exact
    arithmetic) they sum to [n_samples]; the data are then preprocessed and
    rescaled with these rescaled weights, and only the rescaled [X] and [y]
    reach hyperparameter validation, problem assembly and the solver. *)
Theorem fit_rescales_sample_weight
  (env : Env) (cls : CVXEstimatorClass) (st : state)
  (X : matrix) (y : vector) (sample_weight : vector)
  (X1 : matrix) (y1 : vector) (sw1 : vector) (copy_X fit_intercept : pyval)
  (Xp : matrix) (yp : vector) (X_offset : vector) (y_offset : Q) (X_scale : vector)
  (Xr : matrix) (yr : vector) :
  _validate_data env X y = inr (X1, y1) ->
  _check_sample_weight env sample_weight X1 = inr sw1 ->
  ~ (np_sum sw1 == 0)%Q ->
  assoc "copy_X" (attrs st) = Some copy_X ->
  assoc "fit_intercept" (attrs st) = Some fit_intercept ->
  _preprocess_data env X1 y1 copy_X fit_intercept (Some (rescale_sample_weight sw1 X1))
    = (Xp, yp, X_offset, y_offset, X_scale) ->
  _rescale_data env Xp yp (rescale_sample_weight sw1 X1) = (Xr, yr) ->
  (exists s, x_sum (rescale_sample_weight sw1 X1) = Finite s /\
             (s == inject_Z (Z.of_nat (shape0 X1)))%Q) /\
  prepare_data env X y (Some sample_weight) st
    = (st, inr (Xr, yr, X_offset, y_offset, X_scale)) /\
  fit env cls X y (Some sample_weight) st
    = fit_prepared env cls Xr yr X_offset y_offset X_scale st.
Proof.
  intros Hv Hc Hs Hcp Hfi Hpre Hres.
  pose proof (prepare_data_weighted_run env st X y sample_weight X1 y1 sw1 copy_X
                fit_intercept Xp yp X_offset y_offset X_scale Xr yr
                Hv Hc Hcp Hfi Hpre Hres) as Hprep.
  split; [now apply rescale_sample_weight_sum|]. split; [exact Hprep|].
  unfold fit. run_with ltac:(exact Hprep). reflexivity.
Qed.

(* ===================================================================== *)
(** ** solver_options that are not a dict *)
(* ===================================================================== *)

Lemma raises_from_bind {A B} R `{!PreOrder R} (m : M A) (k : A -> M B) st :
  preserves R m ->
  (forall a st1, R st st1 -> raises_from R (k a) st1) ->
  raises_from R (m ≫= k) st.
Proof.
  intros Hm Hk. unfold raises_from, mbind, M_bind, bind.
  destruct (m st) as [st1 [e|a]] eqn:E.
  - exists st1, e. split; [reflexivity | eapply Hm, E].
  - pose proof (Hm _ _ _ E) as H1.
    destruct (Hk a st1 H1) as (st' & e & Hrun & H2).
    exists st', e. split; [exact Hrun | etransitivity; eauto].
Qed.

Lemma no_solve_build : build_frame no_solve.
Proof.
  split; [apply _ | |]; intros; split; try reflexivity.
  - now apply grows_same_trace.
  - apply grows_log. destruct e; try discriminate; reflexivity.
Qed.

Lemma no_solve_push : push_frame no_solve.
Proof.
  split; [apply _ | |]; intros; split; try reflexivity.
  - now apply grows_same_trace.
  - now apply grows_log.
Qed.

Lemma no_solve_same_trace st st' :
  attrs st' = attrs st -> trace st' = trace st -> no_solve st st'.
Proof. intros Ha Ht. split; [exact Ha | now apply grows_same_trace]. Qed.

Lemma get_solver_options_not_dict st v :
  assoc "solver_options" (attrs st) = Some v ->
  is_None v = false -> isinstance v TDict = false ->
  get_solver_options st = (st, inl (TypeError "solver_options must be a dictionary")).
Proof.
  intros Hv Hn Hd. unfold get_solver_options.
  run_with ltac:(apply getattr_run; exact Hv). rewrite Hn. cbn [negb].
  run_with ltac:(apply getattr_run; exact Hv).
  destruct v; try reflexivity; discriminate.
Qed.

(** Whatever the class declares, a fit with such [solver_options] raises
    before the solver is called. *)
Lemma fit_bad_solver_options_raises env cls X y sw st v :
  assoc "solver_options" (attrs st) = Some v ->
  is_None v = false -> isinstance v TDict = false ->
  raises_from no_solve (fit env cls X y sw) st.
Proof.
  intros Hv Hn Hd. unfold fit.
  apply raises_from_bind; [apply _ | |].
  { intros s s' r E. apply prepare_data_pure in E. subst. reflexivity. }
  intros [[[[X' y'] xo] yo] xs] st1 H1. unfold fit_prepared.
  apply raises_from_bind; [apply _ | |].
  { intros s s' r E. apply validate_params_pure in E. subst. reflexivity. }
  intros _ st2 H2.
  apply raises_from_bind; [apply _ | |].
  { apply preserves_build_if_needed; [apply no_solve_build|].
    intros. now apply no_solve_same_trace. }
  intros _ st3 H3.
  apply raises_from_bind; [apply _ | |].
  { apply preserves_warm_start_block; [apply no_solve_build | apply no_solve_push | | |];
      intros; now apply no_solve_same_trace. }
  intros _ st4 H4.
  assert (Hattrs : attrs st4 = attrs st).
  { destruct H1 as [A1 _], H2 as [A2 _], H3 as [A3 _], H4 as [A4 _].
    unfold keeps in *. congruence. }
  exists st4, (TypeError "solver_options must be a dictionary"). split; [|reflexivity].
  unfold solve_and_store. eapply bind_inl.
  eapply get_solver_options_not_dict; eauto. now rewrite Hattrs.
Qed.

Lemma validate_parameter_constraints_first_invalid pc pre name v post decls :
  validate_parameter_constraints pc pre = inr tt ->
  pc !! name = Some decls ->
  existsb (fun d => is_satisfied_by (make_constraint d) v) decls = false ->
  validate_parameter_constraints pc (pre ++ (name, v) :: post)
  = inl (InvalidParameterError name).
Proof.
  intros Hpre Hpc Hbad. induction pre as [|[n w] pre IH]; cbn in *.
  - now rewrite Hpc, Hbad.
  - destruct (pc !! n) as [ds|]; [|now apply IH].
    destruct (existsb _ ds); [now apply IH | discriminate].
Qed.

Lemma bind_inr_inv {A B} (m : M A) (k : A -> M B) st st' b :
  (m ≫= k) st = (st', inr b) ->
  exists a st1, m st = (st1, inr a) /\ k a st1 = (st', inr b).
Proof.
  unfold mbind, M_bind, bind. destruct (m st) as [st1 [e1|a]].
  - discriminate.
  - intros H. eauto.
Qed.

(** C9. When [solver_options] is neither None nor a dict, fit raises and
    the solver is never called.  With the declaration of the base class in
    force ([solver_options] must be a dict or None), valid data and no
    invalid hyperparameter listed before it, the error is the parameter
    validation error naming [solver_options], raised before anything of the
    estimator is touched.  On a class whose declarations let the value pass,
    the error is the TypeError of line 191, naming [solver_options] too. *)
Theorem fit_rejects_solver_options_not_dict
  (env : Env) (cls : CVXEstimatorClass) (st : state)
  (X : matrix) (y : vector) (sample_weight : option vector) (v : pyval) :
  assoc "solver_options" (attrs st) = Some v ->
  is_None v = false ->
  isinstance v TDict = false ->
  (exists st' e,
     fit env cls X y sample_weight st = (st', inl e) /\
     solver_not_invoked st st' /\ attrs st' = attrs st) /\
  (forall pre post data,
     attrs st = pre ++ ("solver_options", v) :: post ->
     merged_parameter_constraints cls !! "solver_options" = Some [DType TDict; DNone] ->
     validate_parameter_constraints (merged_parameter_constraints cls) pre = inr tt ->
     prepare_data env X y sample_weight st = (st, inr data) ->
     fit env cls X y sample_weight st = (st, inl (InvalidParameterError "solver_options"))) /\
  (forall X' y' X_offset y_offset X_scale st3,
     prepare_data env X y sample_weight st = (st, inr (X', y', X_offset, y_offset, X_scale)) ->
     (_validate_params cls X' y';; build_if_needed env cls X' y';; warm_start_block env cls X' y') st
       = (st3, inr tt) ->
     fit env cls X y sample_weight st
       = (st3, inl (TypeError "solver_options must be a dictionary"))).
Proof.
  intros Hv Hn Hd. split; [|split].
  - destruct (fit_bad_solver_options_raises env cls X y sample_weight st v Hv Hn Hd)
      as (st' & e & Hrun & Ha & Hg).
    exists st', e. split; [exact Hrun|]. split; [|exact Ha].
    apply grows_calls_since in Hg as [_ Hg]. exact Hg.
  - intros pre post [[[[X' y'] xo] yo] xs] Hattrs Hdecl Hpre Hprep.
    unfold fit. run_with ltac:(exact Hprep).
    unfold fit_prepared. eapply bind_inl.
    unfold _validate_params. run_step. rewrite Hattrs.
    erewrite validate_parameter_constraints_first_invalid; eauto.
    cbn. rewrite Hd, Hn. reflexivity.
  - intros X' y' xo yo xs st3 Hprep Hprefix.
    apply bind_inr_inv in Hprefix as ([] & s1 & Hval & Hprefix).
    apply bind_inr_inv in Hprefix as ([] & s2 & Hbuild & Hwarm).
    assert (Hattrs : attrs st3 = attrs st).
    { apply validate_params_pure in Hval as Hs1. subst s1.
      pose proof (preserves_build_if_needed (keeps attrs)
                    (build_frame_keeps attrs (fun _ _ => eq_refl) (fun _ _ => eq_refl))
                    cls X' y' (fun _ _ => eq_refl) _ _ _ Hbuild) as H2.
      pose proof (preserves_warm_start_block (keeps attrs)
                    (build_frame_keeps attrs (fun _ _ => eq_refl) (fun _ _ => eq_refl))
                    (push_frame_keeps attrs (fun _ _ _ => eq_refl) (fun _ _ => eq_refl))
                    cls X' y' (fun _ _ => eq_refl) (fun _ _ _ => eq_refl)
                    (fun _ _ _ => eq_refl) _ _ _ Hwarm) as H3.
      unfold keeps in *. congruence. }
    unfold fit. run_with ltac:(exact Hprep). unfold fit_prepared.
    run_with ltac:(exact Hval). run_with ltac:(exact Hbuild).
    run_with ltac:(exact Hwarm).
    unfold solve_and_store. eapply bind_inl.
    eapply get_solver_options_not_dict; eauto. now rewrite Hattrs.
Qed.

(* ===================================================================== *)
(** ** What a failed fit leaves behind *)
(* ===================================================================== *)









(** The same on a path that does not involve the solver: the failing
    parameter push of an estimator without solver-parameterized
    hyperparameters has already created the warm-start cache. *)
Lemma fit_push_failure_leaves_cache :
  outcome (fit Example.env Example.OLS Example.X1 Example.y1 None) Example.ols_toggled1
    = inl (TypeError "argument of type NoneType is not iterable") /\
  cached_X_ Example.ols_toggled1 = None /\
  cached_X_ Example.ols_toggled2 = Some Example.X1.
Proof. repeat split; vm_compute; reflexivity. Qed.


(* ===================================================================== *)
(** ** The theorems at concrete inputs *)
(* ===================================================================== *)

Lemma generate_params_interval_hints_witness :
  exists st' ps,
    _generate_params Example.env Example.Bounded Example.X1 Example.y1 Example.bounded0
      = (st', inr ps) /\
    (exists p, ps !! "eta" = Some p /\ kw_nonneg (par_kwargs p) = true) /\
    (exists p, ps !! "gamma" = Some p /\ kw_pos (par_kwargs p) = true) /\
    (exists p, ps !! "kappa" = Some p /\ kw_pos (par_kwargs p) = true) /\
    (exists p, ps !! "lam" = Some p /\ kw_nonpos (par_kwargs p) = true) /\
    (exists p, ps !! "mu" = Some p /\ kw_neg (par_kwargs p) = true) /\
    (exists p, ps !! "nu" = Some p /\ kw_neg (par_kwargs p) = true) /\
    (exists p, ps !! "steps" = Some p /\ kw_integer (par_kwargs p) = true).
Proof.
  set (st' := run (_generate_params Example.env Example.Bounded Example.X1 Example.y1)
                Example.bounded0).
  set (ps := match outcome (_generate_params Example.env Example.Bounded
                              Example.X1 Example.y1) Example.bounded0 with
             | inr ps => ps
             | inl _ => ∅
             end).
  assert (Hrun : _generate_params Example.env Example.Bounded Example.X1 Example.y1
                   Example.bounded0 = (st', inr ps)) by (vm_compute; reflexivity).
  assert (Hnames : NoDup (map fst (attrs Example.bounded0)))
    by (apply (bool_decide_unpack _); vm_compute; exact I).
  assert (Hcls : _cvx_parameter_constraints Example.Bounded
                 = Some (default ∅ (_cvx_parameter_constraints Example.Bounded)))
    by reflexivity.
  pose proof (fun name value decls ty l r cl Hdecl Hint Hattr =>
                generate_params_interval_hints Example.env Example.Bounded
                  Example.X1 Example.y1 Example.bounded0 _ name value decls ty l r cl
                  Hcls Hdecl Hint Hattr Hnames) as Hthm.
  exists st', ps. split; [exact Hrun|].
  repeat split.
  - destruct (Hthm "eta" (VFloat 1) [DInterval Real (Some 0%Q) None closed_left]
                Real (Some 0%Q) None closed_left)
      as ((_ & Hh & _) & _ & _ & Hret & _);
      [vm_compute; reflexivity | now left | vm_compute; tauto |].
    destruct (Hret st' ps Hrun) as (p & Hp & Hkw).
    exists p. split; [exact Hp|]. rewrite Hkw. now apply (Hh 0%Q).
  - destruct (Hthm "gamma" (VFloat (1 # 2)) [DInterval Real (Some 0%Q) None closed_neither]
                Real (Some 0%Q) None closed_neither)
      as ((_ & Hh & _) & _ & _ & Hret & _);
      [vm_compute; reflexivity | now left | vm_compute; tauto |].
    destruct (Hret st' ps Hrun) as (p & Hp & Hkw).
    exists p. split; [exact Hp|]. rewrite Hkw. now apply (Hh 0%Q).
  - destruct (Hthm "kappa" (VFloat 1) [DInterval Real (Some (1 # 2)%Q) None closed_both]
                Real (Some (1 # 2)%Q) None closed_both)
      as ((_ & _ & Hh & _) & _ & _ & Hret & _);
      [vm_compute; reflexivity | now left | vm_compute; tauto |].
    destruct (Hret st' ps Hrun) as (p & Hp & Hkw).
    exists p. split; [exact Hp|]. rewrite Hkw. now apply (Hh (1 # 2)%Q).
  - destruct (Hthm "lam" (VFloat (-1)) [DInterval Real None (Some 0%Q) closed_right]
                Real None (Some 0%Q) closed_right)
      as ((_ & _ & _ & Hh & _) & _ & _ & Hret & _);
      [vm_compute; reflexivity | now left | vm_compute; tauto |].
    destruct (Hret st' ps Hrun) as (p & Hp & Hkw).
    exists p. split; [exact Hp|]. rewrite Hkw. now apply (Hh 0%Q).
  - destruct (Hthm "mu" (VFloat (-1)) [DInterval Real None (Some 0%Q) closed_neither]
                Real None (Some 0%Q) closed_neither)
      as ((_ & _ & _ & Hh & _) & _ & _ & Hret & _);
      [vm_compute; reflexivity | now left | vm_compute; tauto |].
    destruct (Hret st' ps Hrun) as (p & Hp & Hkw).
    exists p. split; [exact Hp|]. rewrite Hkw. now apply (Hh 0%Q).
  - destruct (Hthm "nu" (VFloat (-2)) [DInterval Real None (Some (-1)%Q) closed_both]
                Real None (Some (-1)%Q) closed_both)
      as ((_ & _ & _ & _ & Hh) & _ & _ & Hret & _);
      [vm_compute; reflexivity | now left | vm_compute; tauto |].
    destruct (Hret st' ps Hrun) as (p & Hp & Hkw).
    exists p. split; [exact Hp|]. rewrite Hkw. now apply (Hh (-1)%Q).
  - destruct (Hthm "steps" (VInt 3) [DInterval Integral None None closed_neither]
                Integral None None closed_neither)
      as ((Hh & _) & _ & _ & Hret & _);
      [vm_compute; reflexivity | now left | vm_compute; tauto |].
    destruct (Hret st' ps Hrun) as (p & Hp & Hkw).
    exists p. split; [exact Hp|]. rewrite Hkw. now apply Hh.
Defined.


Lemma generate_problem_assembles_witness :
  exists st' pevs,
    generate_problem Example.env Example.Ridge Example.X1 Example.y1 Example.warm0 = (st', inr tt) /\
    calls_since Example.warm0 st' =
      [EvVariable 0 2; EvGenerateParams] ++ pevs ++
      [EvAuxiliaries; EvObjective; EvConstraints; EvProblem 2].
Proof.
  set (b := {| var_id := 0; var_len := 2 |}).
  set (s := log EvGenerateParams (log (EvVariable 0 2) (alloc VNone Example.warm0))).
  set (ps := match outcome (_generate_params Example.env Example.Ridge Example.X1 Example.y1) s with
             | inr ps => ps
             | inl _ => ∅
             end).
  set (obj := match _generate_objective Example.Ridge (attrs Example.warm0)
                      Example.X1 Example.y1 b (Some ps) None with
              | inr o => o
              | inl _ => EConst 0
              end).
  destruct (generate_problem_assembles Example.env Example.Ridge Example.X1 Example.y1 Example.warm0
              (run (_generate_params Example.env Example.Ridge Example.X1 Example.y1) s)
              ps None obj None)
    as (st' & pevs & Hrun & _ & _ & Hcalls & _).
  - vm_compute. reflexivity.
  - vm_compute. reflexivity.
  - vm_compute. reflexivity.
  - vm_compute. reflexivity.
  - exists st', pevs. split; [exact Hrun | exact Hcalls].
Defined.

Lemma warm_refit_without_cvx_parameters_raises_witness :
  exists st',
    fit Example.env Example.OLS Example.X1 Example.y1 None Example.ols_toggled2 =
      (st', inl (TypeError "argument of type NoneType is not iterable")) /\
    solver_not_invoked Example.ols_toggled2 st'.
Proof.
  destruct (warm_refit_without_cvx_parameters_raises Example.env Example.OLS
              Example.ols_toggled2 (Example.descriptor Example.ols_toggled2)
              Example.X1 Example.y1 None Example.X1 Example.y1
              [0; 0]%Q 0%Q [1; 1]%Q)
    as (st' & Hrun & Hsolve & _).
  - reflexivity.
  - vm_compute. reflexivity.
  - vm_compute. reflexivity.
  - vm_compute. reflexivity.
  - vm_compute. reflexivity.
  - vm_compute. reflexivity.
  - exists st'. split; [exact Hrun | exact Hsolve].
Defined.




Lemma fit_rescales_sample_weight_witness :
  (exists s, x_sum (rescale_sample_weight [1; 2; 1]%Q Example.X1) = Finite s /\
             (s == inject_Z (Z.of_nat (shape0 Example.X1)))%Q) /\
  fit Example.env Example.Ridge Example.X1 Example.y1 (Some [1; 2; 1]%Q) Example.warm0
  = fit_prepared Example.env Example.Ridge
      [[3 # 4; 0 # 4]; [0 # 4; 6 # 4]; [3 # 4; 3 # 4]]%Q [3 # 4; 6 # 4; 6 # 4]%Q
      [0; 0]%Q 0%Q [1; 1]%Q Example.warm0.
Proof.
  destruct (fit_rescales_sample_weight Example.env Example.Ridge Example.warm0
              Example.X1 Example.y1 [1; 2; 1]%Q Example.X1 Example.y1 [1; 2; 1]%Q
              (VBool true) (VBool false) Example.X1 Example.y1
              [0; 0]%Q 0%Q [1; 1]%Q
              [[3 # 4; 0 # 4]; [0 # 4; 6 # 4]; [3 # 4; 3 # 4]]%Q [3 # 4; 6 # 4; 6 # 4]%Q)
    as (Hsum & _ & Hfit).
  - reflexivity.
  - reflexivity.
  - intros H. vm_compute in H. discriminate.
  - reflexivity.
  - reflexivity.
  - reflexivity.
  - vm_compute. reflexivity.
  - split; [exact Hsum | exact Hfit].
Defined.

Lemma fit_rejects_solver_options_not_dict_witness :
  fit Example.env Example.Ridge Example.X1 Example.y1 None Example.bad_options
  = (Example.bad_options, inl (InvalidParameterError "solver_options")).
Proof.
  destruct (fit_rejects_solver_options_not_dict Example.env Example.Ridge
              Example.bad_options Example.X1 Example.y1 None (VInt 5))
    as (_ & Hnamed & _).
  - reflexivity.
  - reflexivity.
  - reflexivity.
  - apply (Hnamed
             [("copy_X", VBool true); ("eta", VFloat 1); ("fit_intercept", VBool false);
              ("solver", VNone)]
             [("tikhonov_w", VNone); ("warm_start", VBool false)]
             (Example.X1, Example.y1, [0; 0]%Q, 0%Q, [1; 1]%Q)).
    + reflexivity.
    + vm_compute. reflexivity.
    + vm_compute. reflexivity.
    + vm_compute. reflexivity.
Defined.
